(** * happypandax: the client handler of [happypanda/server/core/server.py]

    A shallow embedding of [ClientHandler] ([parse], the [_check_*] helpers,
    [advance], [on_error], [on_wait], [send]) and of the receive loop
    [HPServer._handle], together with the operation table built from
    [happypanda/server/interface/gallery.py], and of the start-up of the
    server in [HPServer._start] and [HPServer.run].

    Python objects are an inductive type [value]; exceptions are an error
    monad; every call that leaves the handler (the JSON decoder, an
    operation, the socket) is logged in a trace, so that statements such as
    "no operation is invoked" are statements about that trace. *)

From Stdlib Require Import ZArith Bool Ascii String List Lia DecimalString.
From Stdlib.Strings Require Import Byte.
From stdpp Require Import base option list strings gmap.

Set Warnings "-register-all".

Local Open Scope string_scope.
Local Open Scope list_scope.

(** ** Bytes *)

(** A Python [bytes] object. *)
Abbreviation bytes := (list byte).

(** A bytes literal, [b'...'] in the source. *)
Definition bytes_lit (s : string) : bytes := list_byte_of_string s.

Fixpoint startswith (data prefix : bytes) : bool :=
  match prefix, data with
  | [], _ => true
  | p :: prefix', d :: data' => Byte.eqb p d && startswith data' prefix'
  | _ :: _, [] => false
  end.

(** [bytes.endswith]. *)
Definition endswith (data suffix : bytes) : bool :=
  startswith (rev data) (rev suffix).

(** ** Python objects *)

(** A Python [float]: a dyadic number [m * 2^e], an infinity or a NaN. *)
Inductive pyfloat :=
| FNan
| FInf (negative : bool)
| FFin (m e : Z).

(** The objects the handler can meet: what [json.loads] produces, and the
    tuples of key names written in the source.  A [dict] is the list of its
    items in insertion order; its keys are strings and pairwise distinct. *)
Inductive value :=
| VNone
| VBool (flag : bool)
| VInt (z : Z)
| VFloat (x : pyfloat)
| VStr (s : string)
| VList (items : list value)
| VTuple (items : list value)
| VDict (items : list (string * value)).

(** A tuple of string literals, such as [('name', 'data')]. *)
Definition str_tuple (keys : list string) : value := VTuple (map VStr keys).

Definition dict_get (items : list (string * value)) (key : string) : option value :=
  snd <$> find (fun kv => String.eqb (fst kv) key) items.

Definition dict_keys (items : list (string * value)) : list string := map fst items.

(** *** Equality ([==]) *)

Definition float_eq (x y : pyfloat) : bool :=
  match x, y with
  | FFin m e, FFin m' e' =>
      let k := Z.min e e' in
      (m * 2 ^ (e - k) =? m' * 2 ^ (e' - k))%Z
  | FInf s, FInf s' => Bool.eqb s s'
  | _, _ => false
  end.

(** The number a [bool], [int] or [float] stands for. *)
Definition as_number (v : value) : option pyfloat :=
  match v with
  | VBool flag => Some (FFin (if flag then 1 else 0) 0)
  | VInt z => Some (FFin z 0)
  | VFloat x => Some x
  | _ => None
  end.

Fixpoint py_eq (x y : value) : bool :=
  match x, y with
  | VNone, VNone => true
  | VStr s, VStr t => String.eqb s t
  | VList xs, VList ys | VTuple xs, VTuple ys =>
      (fix all2 (l : list value) (r : list value) : bool :=
         match l, r with
         | [], [] => true
         | u :: l', v :: r' => py_eq u v && all2 l' r'
         | _, _ => false
         end) xs ys
  | VDict xs, VDict ys =>
      Nat.eqb (length xs) (length ys)
      && forallb (fun kv => match dict_get ys (fst kv) with
                            | Some w => py_eq (snd kv) w
                            | None => false
                            end) xs
  | _, _ =>
      match as_number x, as_number y with
      | Some n, Some m => float_eq n m
      | _, _ => false
      end
  end.

(** *** Exceptions *)

(** [CoreError] stands for [exceptions.CoreError] and its subclasses: the
    handler reads [code] and [msg] from it.  The others are the built-in
    exceptions and [socket.error]. *)
Inductive exn :=
| CoreError (code : Z) (location msg : string)
| TypeError
| KeyError
| AssertionError
| socket_error.

Definition is_CoreError (e : exn) : bool :=
  match e with CoreError _ _ _ => true | _ => false end.

(** The outcome of a Python expression: a value or a raised exception. *)
Inductive res (A : Type) :=
| Ok (a : A)
| Raise (e : exn).
Arguments Ok {A} a.
Arguments Raise {A} e.

#[global] Instance res_ret : MRet res := fun A a => Ok a.
#[global] Instance res_bind : MBind res := fun A B f m =>
  match m with
  | Ok a => f a
  | Raise e => Raise e
  end.

(** A [for] loop whose body may raise. *)
Fixpoint for_each {A} (items : list A) (body : A -> res unit) : res unit :=
  match items with
  | [] => Ok tt
  | x :: items' => body x ;; for_each items' body
  end.

(** *** Built-in operations *)

Fixpoint hashable (v : value) : bool :=
  match v with
  | VList _ | VDict _ => false
  | VTuple items => forallb hashable items
  | _ => true
  end.

Fixpoint is_substring (s t : string) : bool :=
  String.prefix s t ||
  match t with
  | EmptyString => false
  | String _ t' => is_substring s t'
  end.

(** [x in container]. *)
Definition py_in (x container : value) : res bool :=
  match container with
  | VList items | VTuple items => Ok (existsb (fun y => py_eq y x) items)
  | VDict items =>
      if hashable x then
        Ok (match x with
            | VStr key => existsb (String.eqb key) (dict_keys items)
            | _ => false
            end)
      else Raise TypeError
  | VStr t =>
      match x with
      | VStr s => Ok (is_substring s t)
      | _ => Raise TypeError
      end
  | _ => Raise TypeError
  end.

Fixpoint chars (s : string) : list string :=
  match s with
  | EmptyString => []
  | String c s' => String c EmptyString :: chars s'
  end.

(** What [for x in container] runs through. *)
Definition py_iter (container : value) : res (list value) :=
  match container with
  | VList items | VTuple items => Ok items
  | VDict items => Ok (map VStr (dict_keys items))
  | VStr s => Ok (map VStr (chars s))
  | _ => Raise TypeError
  end.

(** [len(container)]. *)
Definition py_len (container : value) : res nat :=
  match container with
  | VList items | VTuple items => Ok (length items)
  | VDict items => Ok (length items)
  | VStr s => Ok (String.length s)
  | _ => Raise TypeError
  end.

(** [container[key]] for a string [key]. *)
Definition py_getitem (container : value) (key : string) : res value :=
  match container with
  | VDict items =>
      match dict_get items key with
      | Some v => Ok v
      | None => Raise KeyError
      end
  | _ => Raise TypeError
  end.

(** [isinstance(data, (list, dict, tuple))]. *)
Definition is_list_dict_tuple (data : value) : bool :=
  match data with
  | VList _ | VDict _ | VTuple _ => true
  | _ => false
  end.

(** [isinstance(data, list)]. *)
Definition is_list (data : value) : bool :=
  match data with
  | VList _ => true
  | _ => false
  end.

(** ** Messages *)
Module message.

(** Modelled from the spec: [happypanda.common.message] is not among the
    sources.  The messages the handler and the operations build:
    [Message("wait")], [Error(code, msg)], [Function(name, msg)] and the
    list [List("function", Function)] with the items appended to it. *)
Inductive CoreMessage :=
| Message (name : string)
| Error (code : Z) (msg : string)
| Function (fname : string) (data : CoreMessage)
| List (name : string) (items : list CoreMessage).

(** Modelled from the spec: the body of a message on the wire, after the
    response, error and wait schemas of the spec's section 6. *)
Fixpoint json_friendly (m : CoreMessage) : value :=
  match m with
  | Message name => VDict [("type", VStr name)]
  | Error code msg =>
      VDict [("type", VStr "error"); ("code", VInt code); ("message", VStr msg)]
  | Function fname data =>
      VDict [("fname", VStr fname); ("data", json_friendly data)]
  | List name items =>
      VDict [("type", VStr name); ("data", VList (map json_friendly items))]
  end.

End message.

(** ** Function objects *)

(** What an operation returns: a [CoreMessage], or some other object. *)
Inductive retval :=
| RMsg (m : message.CoreMessage)
| RObj (v : value).

(** Keyword arguments: the dict [func_args] a function is called with. *)
Abbreviation kwargs := (list (string * value)).

(** A Python function: its [__name__], the [co_varnames] and [co_argcount]
    of its code object (the parameters come first in [co_varnames], the
    local variables after them), and what its body does with the bound
    arguments. *)
Record function := {
  fn_name : string;
  co_varnames : list string;
  co_argcount : nat;
  fn_body : kwargs -> res retval
}.

(** The declared formal parameters. *)
Definition formals (f : function) : list string :=
  take (co_argcount f) (co_varnames f).

Definition str_in (x : string) (xs : list string) : bool :=
  existsb (String.eqb x) xs.

(** A call with keyword arguments only: a keyword that is no formal
    parameter is a [TypeError]; otherwise the body runs. *)
Definition call (func : function) (func_args : kwargs) : res retval :=
  if forallb (fun k => str_in k (formals func)) (dict_keys func_args)
  then fn_body func func_args
  else Raise TypeError.

(** ** Traces *)

(** The calls that leave the handler: [utils.convert_to_json] on [data],
    an operation called with its keyword arguments, [client.sendall]. *)
Inductive event :=
| Decode (data : bytes)
| Invoke (func : function) (func_args : kwargs)
| Sendall (msg : bytes).

Definition is_Invoke (ev : event) : bool :=
  match ev with Invoke _ _ => true | _ => false end.

Definition is_Decode (ev : event) : bool :=
  match ev with Decode _ => true | _ => false end.

(** A computation of the handler: the events it caused, then its outcome. *)
Record M (A : Type) := Run { events : list event; outcome : res A }.
Arguments Run {A} events outcome.
Arguments events {A} m.
Arguments outcome {A} m.

#[global] Instance M_ret : MRet M := fun A a => Run [] (Ok a).
#[global] Instance M_bind : MBind M := fun A B f m =>
  match outcome m with
  | Ok a => Run (events m ++ events (f a)) (outcome (f a))
  | Raise e => Run (events m) (Raise e)
  end.

(** A computation without events. *)
Definition pure {A} (r : res A) : M A := Run [] r.

(** One event, with the outcome of the call. *)
Definition emit {A} (ev : event) (r : res A) : M A := Run [ev] r.

(** [try: body / except exceptions.CoreError as e: handler(e)]. *)
Definition try_except_CoreError {A} (body : M A) (handler : exn -> M A) : M A :=
  match outcome body with
  | Raise (CoreError code location msg) =>
      let h := handler (CoreError code location msg) in
      Run (events body ++ events h) (outcome h)
  | _ => body
  end.

(** [try: body / except socket.error: pass]. *)
Definition try_except_socket_error (body : M unit) : M unit :=
  match outcome body with
  | Raise socket_error => Run (events body) (Ok tt)
  | _ => body
  end.

(** A list built by a loop whose body may raise. *)
Fixpoint map_res {A B} (body : A -> res B) (items : list A) : res (list B) :=
  match items with
  | [] => Ok []
  | x :: items' => y ← body x; ys ← map_res body items'; Ok (y :: ys)
  end.

(** ** The operations of [happypanda/server/interface/gallery.py] *)
Module interface.

(** Every operation of the file returns [message.Message("works")]. *)
Definition works (_ : kwargs) : res retval := Ok (RMsg (message.Message "works")).

Definition fetch_galleries : function :=
  {| fn_name := "fetch_galleries";
     co_varnames := ["gallery_ids"];
     co_argcount := 1;
     fn_body := works |}.

Definition gallery_view : function :=
  {| fn_name := "gallery_view";
     co_varnames := ["page"; "gallery_limit"; "search_filter"; "list_id"; "gallery_filter"];
     co_argcount := 5;
     fn_body := works |}.

Definition add_gallery : function :=
  {| fn_name := "add_gallery";
     co_varnames := ["galleries"; "paths"];
     co_argcount := 2;
     fn_body := works |}.

Definition scan_gallery : function :=
  {| fn_name := "scan_gallery";
     co_varnames := ["paths"; "add_after"; "ignore_exist"];
     co_argcount := 3;
     fn_body := works |}.

(** [getmembers(interface, isfunction)] for these four, sorted by name;
    the package is taken to export the functions of its module [gallery]. *)
Definition members : list (string * function) :=
  [("add_gallery", add_gallery); ("fetch_galleries", fetch_galleries);
   ("gallery_view", gallery_view); ("scan_gallery", scan_gallery)].

End interface.

(** ** The world of a connection *)

(** One [client.recv(constants.data_size)]: what it returns (no bytes
    when the peer has closed) or [socket.error], and the values of
    [constants.server_ready] and of the handler's [_stopped] once the
    task runs again. *)
Record recv_step := {
  received : res bytes;
  now_ready : bool;
  now_stopped : bool
}.

(** ** Sample collaborators

    Concrete stand-ins for what the handler imports, used by the examples
    at the end: a delimiter, a decoder that knows a few frames, a compact
    JSON writer, and two operations of which the second fails. *)
Module sample.

Definition postfix : bytes := bytes_lit "<EOF>".

Definition dq : ascii := ascii_of_nat 34.

(** Writes a JSON text with apostrophes in place of double quotes. *)
Fixpoint json_lit (s : string) : string :=
  match s with
  | EmptyString => EmptyString
  | String c s' => String (if Ascii.eqb c "'" then dq else c) (json_lit s')
  end.

(** A frame: the JSON text, then the delimiter. *)
Definition frame (text : string) : bytes := bytes_lit (json_lit text) ++ postfix.

Definition quoted (s : string) : string := String dq s +:+ String dq EmptyString.

(** A compact JSON writer for message bodies (strings are not escaped,
    objects that no message body contains are written as [null]). *)
Fixpoint json_text (v : value) : string :=
  match v with
  | VBool true => "true"
  | VBool false => "false"
  | VInt z => NilZero.string_of_int (Z.to_int z)
  | VStr s => quoted s
  | VList items => "[" +:+ String.concat "," (map json_text items) +:+ "]"
  | VDict items =>
      "{" +:+ String.concat ","
                (map (fun kv => quoted (fst kv) +:+ ":" +:+ json_text (snd kv)) items)
      +:+ "}"
  | _ => "null"
  end.

Definition dumps (v : value) : bytes := bytes_lit (json_text v).

Definition repr (v : value) : string := json_text v.

Definition InvalidMessage_code : Z := 400.

Definition call_fetch (arguments : kwargs) : value :=
  VDict (("fname", VStr "fetch_galleries") :: arguments).

Definition request (calls : list value) : value :=
  VDict [("name", VStr "x"); ("data", VList calls)].

(** The JSON texts the sample decoder knows, with what they decode to. *)
Definition frames : list (string * value) :=
  [ ("{'name':'x','data':[]}", request []);
    ("{'name':'x','data':[{'fname':'fetch_galleries','bogus':1},{'fname':'nope'}]}",
     request [call_fetch [("bogus", VInt 1)]; VDict [("fname", VStr "nope")]]);
    ("{'name':'x','data':[{'fname':'fetch_galleries'},{'fname':'nope'}]}",
     request [call_fetch []; VDict [("fname", VStr "nope")]]);
    ("{'name':'x','data':[{'fname':'fetch_galleries'},{'fname':'fetch_galleries','bogus':1}]}",
     request [call_fetch []; call_fetch [("bogus", VInt 1)]]);
    ("{'name':'x','data':[{'fname':'opA'},{'fname':'opB'},{'fname':'opA'}]}",
     request [VDict [("fname", VStr "opA")]; VDict [("fname", VStr "opB")];
              VDict [("fname", VStr "opA")]]);
    ("{'name':'x','data':[{'fname':'scan_gallery','paths':[]},{'fname':'fetch_galleries'}]}",
     request [VDict [("fname", VStr "scan_gallery"); ("paths", VList [])]; call_fetch []]);
    ("['name','data']", VList [VStr "name"; VStr "data"]);
    ("{'name':'x','data':[['fname']]}", request [VList [VStr "fname"]]);
    ("{'name':'x','data':[{'fname':[]}]}", request [VDict [("fname", VList [])]]) ].

Definition bytes_eqb (x y : bytes) : bool :=
  Nat.eqb (length x) (length y) && startswith x y.

(** Takes the data with or without the delimiter at its end and looks the
    text up; an unknown text is a parse error, a [CoreError]. *)
Definition convert_to_json (data : bytes) (location : string) : res value :=
  let text :=
    if endswith data postfix then take (length data - length postfix) data else data in
  match find (fun entry => bytes_eqb (bytes_lit (json_lit (fst entry))) text) frames with
  | Some entry => Ok (snd entry)
  | None => Raise (CoreError 300 location "Failed parsing json data")
  end.

Definition opA : function :=
  {| fn_name := "opA";
     co_varnames := ["n"];
     co_argcount := 1;
     fn_body := fun _ => Ok (RMsg (message.Message "done")) |}.

(** Raises a [CoreError] with code 42. *)
Definition opB : function :=
  {| fn_name := "opB";
     co_varnames := [];
     co_argcount := 0;
     fn_body := fun _ => Raise (CoreError 42 "opB" "bad gallery id") |}.

Definition members : list (string * function) := [("opA", opA); ("opB", opB)].

(** [needle in haystack] for bytes. *)
Fixpoint is_subbytes (needle haystack : bytes) : bool :=
  startswith haystack needle ||
  match haystack with
  | [] => false
  | _ :: haystack' => is_subbytes needle haystack'
  end.

(** A [recv] that returns [data] while the server is ready and the handler
    active. *)
Definition recv (data : bytes) : recv_step :=
  {| received := Ok data; now_ready := true; now_stopped := false |}.

End sample.

(** ** Starting the server

    [HPServer._start] and [HPServer.run] call the database, the stream
    server, the web server and the interactive interface, and print.  The
    outcome of each of these calls is given; what is modelled is which
    calls are made, in which order, and what becomes of their
    exceptions.  [socket.error] is [OSError]: [socket_error] stands for
    both in [except (socket.error, OSError)]. *)

(** The calls that leave [HPServer]: [print] and [utils.eprint], [db.init],
    [serve_forever] and [start] of the stream server, [hweb.socketio.run]
    with its [block] and [debug] arguments, [interface.interactive]. *)
Inductive server_event :=
| Print (line : string)
| EPrint (line : string)
| DbInit
| ServeForever
| ServerStart
| WebRun (block debug : bool)
| Interactive.

(** What the server is started with: the outcome of each call, and the
    constants [local_port], [web_port] and [debug]. *)
Record services := {
  db_init : res unit;
  serve_forever : res unit;
  server_start : res unit;
  web_run : bool -> res unit;
  run_interactive : res unit;
  local_port : Z;
  web_port : Z;
  debug : bool
}.

(** A computation of the server: the calls it made, then its outcome. *)
Record Srv (A : Type) := Ran { calls_made : list server_event; result : res A }.
Arguments Ran {A} calls_made result.
Arguments calls_made {A} s.
Arguments result {A} s.

#[global] Instance Srv_ret : MRet Srv := fun A a => Ran [] (Ok a).
#[global] Instance Srv_bind : MBind Srv := fun A B f m =>
  match result m with
  | Ok a => Ran (calls_made m ++ calls_made (f a)) (result (f a))
  | Raise e => Ran (calls_made m) (Raise e)
  end.

(** One call, with its outcome. *)
Definition act (ev : server_event) (r : res unit) : Srv unit := Ran [ev] r.

(** [try: body / except (socket.error, OSError) as e: handler]. *)
Definition try_except_OSError (body handler : Srv unit) : Srv unit :=
  match result body with
  | Raise socket_error => Ran (calls_made body ++ calls_made handler) (result handler)
  | _ => body
  end.

(** ["{}".format(port)] for an [int]. *)
Definition port_text (port : Z) : string := NilZero.string_of_int (Z.to_int port).

(** [HPServer._start]. *)
Definition _start (env : services) (blocking : bool) : Srv unit :=
  act DbInit (db_init env) ;;
  try_except_OSError
    (if blocking then
       act (Print ("Starting server... (Port: " +:+ port_text (local_port env)
                   +:+ ") (blocking)")) (Ok tt) ;;
       act ServeForever (serve_forever env)
     else
       act ServerStart (server_start env) ;;
       act (Print ("Server successfully started (Port: " +:+ port_text (local_port env)
                   +:+ ")")) (Ok tt))
    (act (EPrint "Error: Failed to start server (Port might already be in use)") (Ok tt)).

(** [HPServer.run]. *)
Definition run (env : services) (web interactive : bool) : Srv unit :=
  _start env (negb (web || interactive)) ;;
  (if web then
     try_except_OSError
       (act (Print ("Web server successfully starting... (Port: "
                    +:+ port_text (web_port env) +:+ ") "
                    +:+ (if negb interactive then "(blocking)" else ""))) (Ok tt) ;;
        act (WebRun (negb interactive) (debug env)) (web_run env (negb interactive)) ;;
        act (Print ("Web server successfully started (Port: "
                    +:+ port_text (web_port env) +:+ ")")) (Ok tt))
       (act (EPrint "Error: Failed to start web server (Port might already be in use)")
            (Ok tt))
   else mret tt) ;;
  (if interactive then act Interactive (run_interactive env) else mret tt) ;;
  act (Print "Server shutting down.") (Ok tt).


(** ** Further sample collaborators *)
Module examples.

(** A decoder that decodes every frame to the same object. *)
Definition decodes_to (j_data : value) (data : bytes) (location : string) : res value :=
  Ok j_data.

(** An operation that returns [None], which is no message. *)
Definition returns_none : function :=
  {| fn_name := "returns_none";
     co_varnames := [];
     co_argcount := 0;
     fn_body := fun _ => Ok (RObj VNone) |}.

Definition members : list (string * function) :=
  [("opA", sample.opA); ("returns_none", returns_none)].

Definition batch : value :=
  sample.request [VDict [("fname", VStr "opA")]; VDict [("fname", VStr "returns_none")];
                  VDict [("fname", VStr "opA")]].

(** The first and the second half of a frame. *)
Definition first_half : bytes := bytes_lit (sample.json_lit "{'name':'x',").
Definition second_half : bytes :=
  bytes_lit (sample.json_lit "'data':[]}") ++ sample.postfix.

(** Services that all return, but for a stream server whose port is
    taken. *)
Definition port_taken : services :=
  {| db_init := Ok tt;
     serve_forever := Raise socket_error;
     server_start := Raise socket_error;
     web_run := fun _ => Ok tt;
     run_interactive := Ok tt;
     local_port := 7007;
     web_port := 7008;
     debug := false |}.

(** Services whose database cannot be initialised. *)
Definition no_database : services :=
  {| db_init := Raise KeyError;
     serve_forever := Ok tt;
     server_start := Ok tt;
     web_run := fun _ => Ok tt;
     run_interactive := Ok tt;
     local_port := 7007;
     web_port := 7008;
     debug := false |}.

End examples.

(** ** Tactics for lists that are written out *)

(** An implication between a membership in a list that is written out and
    equations of booleans: either the premise is absurd or the conclusion
    holds. *)
Ltac absurd_premise H :=
  simpl in H;
  lazymatch type of H with
  | _ /\ _ =>
      let H1 := fresh in
      let H2 := fresh in
      destruct H as [H1 H2]; solve [discriminate H1 | discriminate H2]
  | _ \/ _ =>
      repeat (destruct H as [H|H]; try discriminate H);
      solve [destruct H | discriminate H]
  | False => destruct H
  | _ => discriminate H
  end.

Ltac written_conclusion :=
  simpl;
  solve [ reflexivity
        | split; reflexivity
        | left; reflexivity
        | right; reflexivity
        | repeat match goal with
                 | |- _ \/ _ => (left; reflexivity) || right
                 end ].

Ltac written_list :=
  let H := fresh in
  intros H; first [ absurd_premise H | clear H; written_conclusion ].

(** ** The client handler *)

(** [_special_functions]: functions that are no part of the api. *)
Definition _special_functions : list string := ["interactive"].

(** The state of a [ClientHandler]: [_address] and [_stopped]; the socket
    [_client] is the trace. *)
Record ClientHandler := {
  _address : string;
  _stopped : bool
}.

(** [ClientHandler.__init__]. *)
Definition new_handler (address : string) : ClientHandler :=
  {| _address := address; _stopped := false |}.

Definition is_active (self : ClientHandler) : bool := negb (_stopped self).

(** A message with one hole left, such as ["JSON dict missing '{}' key"]:
    the text before the hole and the text after it. *)
Abbreviation template := (string * string)%type.

Section Handler.

(** [constants.postfix], the delimiter that ends every frame. *)
Variable postfix : bytes.

(** [utils.convert_to_json(data, where)]: the decoded object, or the
    exception it raises. *)
Variable convert_to_json : bytes -> string -> res value.

(** [str(x)] for an object that is no string. *)
Variable repr : value -> string.

(** The encoder of a message body, from its JSON form to bytes. *)
Variable dumps : value -> bytes.

(** The [code] of an [exceptions.InvalidMessage], a constant of the class
    ([happypanda.common.exceptions] is not among the sources). *)
Variable InvalidMessage_code : Z.

(** Modelled from the spec: [exceptions.InvalidMessage(where, msg)], the
    protocol error, a [CoreError] that the dispatch boundary catches. *)
Definition InvalidMessage (location msg : string) : exn :=
  CoreError InvalidMessage_code location msg.

(** [getmembers(interface, isfunction)]: the functions of the package
    [happypanda.server.interface], by name. *)
Variable interface_members : list (string * function).

(** [ClientHandler.api]: name to function object, without the special
    functions. *)
Definition api : gmap string function :=
  foldl (fun table x => <[fst x := snd x]> table) ∅
        (filter (fun x => negb (str_in (fst x) _special_functions)) interface_members).

(** [function_name in self.api] and [self.api[function_name]]: a key that
    is not hashable is a [TypeError], a key that is no string is absent. *)
Definition api_get (function_name : value) : res (option function) :=
  if hashable function_name then
    Ok (match function_name with
        | VStr s => api !! s
        | _ => None
        end)
  else Raise TypeError.

(** [message.serialize()]. *)
Definition serialize (m : message.CoreMessage) : bytes :=
  dumps (message.json_friendly m).

(** ["{}".format(x)]. *)
Definition py_str (x : value) : string :=
  match x with
  | VStr s => s
  | _ => repr x
  end.

Definition format1 (msg : template) (x : value) : string :=
  fst msg +:+ py_str x +:+ snd msg.

(** [ClientHandler.sendall]: the message, then the delimiter.  The socket
    takes every write: [client.sendall] returns. *)
Definition sendall (msg : bytes) : M unit :=
  emit (Sendall msg) (Ok tt) ;; emit (Sendall postfix) (Ok tt).

Definition send (msg : bytes) : M unit := sendall msg.

Definition _expect_iterable (location : string) (data : value) : res unit :=
  if is_list_dict_tuple data then Ok tt
  else Raise (InvalidMessage location ("A list/dict was expected, not: " +:+ py_str data)).

Definition _check_required_key (location : string) (msg : template)
    (required_keys data : value) : res unit :=
  for_each [required_keys; data] (_expect_iterable location) ;;
  xs ← py_iter data;
  for_each xs (fun x =>
    present ← py_in x required_keys;
    if (present : bool) then Ok tt
    else Raise (InvalidMessage location (format1 msg x))).

(** Check if required keys are missing in provided data. *)
Definition _check_missing (location msg : string) (keys data : value) : res unit :=
  _check_required_key location (msg +:+ " missing '", "' key") data keys.

(** Checks if there are unknown keys in provided data. *)
Definition _check_unknown (location msg : string) (keys data : value) : res unit :=
  n ← py_len data;
  k ← py_len keys;
  if negb (Nat.eqb n k)
  then _check_required_key location (msg +:+ " contains unknown key '", "'") keys data
  else Ok tt.

(** Invokes both missing and unknown key. *)
Definition _check_both (location msg : string) (keys data : value) : res unit :=
  _check_missing location msg keys data ;;
  _check_unknown location msg keys data.

Definition function_keys : list string := ["fname"].

(** The argument names of a call, [func_args] in [parse]: the keys of
    the function dict that are no function key. *)
Definition arg_names (items : list (string * value)) : list string :=
  filter (fun arg => negb (str_in arg function_keys)) (dict_keys items).

(** The body of the loop of [parse] over the function dicts: the
    subscript [f['fname']] needs [f] to be a dict. *)
Definition parse_function (location : string) (f : value) : res (function * kwargs) :=
  _check_missing location "Function message" (str_tuple function_keys) f ;;
  match f with
  | VDict items =>
      function_name ← py_getitem f "fname";
      found ← api_get function_name;
      match found with
      | None =>
          Raise (InvalidMessage location
                   ("Function not found: '" +:+ py_str function_name +:+ "'"))
      | Some func =>
          let func_args := arg_names items in
          for_each func_args (fun arg =>
            if str_in arg (co_varnames func) then Ok tt
            else Raise (InvalidMessage location
                          ("Unexpected argument in function '" +:+ py_str function_name
                           +:+ "': '" +:+ arg +:+ "'"))) ;;
          args ← map_res (fun x => v ← py_getitem f x; Ok (x, v)) func_args;
          Ok (func, args)
      end
  | _ => Raise TypeError
  end.

(** What [parse] does with the decoded object. *)
Definition parse_object (location : string) (j_data : value) :
    res (list (function * kwargs)) :=
  let root_keys := str_tuple ["name"; "data"] in
  _check_both location "JSON dict" root_keys j_data ;;
  msg_data ← py_getitem j_data "data";
  match msg_data with
  | VList fs => map_res (parse_function location) fs
  | _ => Raise (InvalidMessage location "No list of function objects found in 'data'")
  end.

(** [ClientHandler.parse]: the list of (function, function_kwargs). *)
Definition parse (data : bytes) : M (list (function * kwargs)) :=
  let location := "Message parsing" in
  j_data ← emit (Decode data) (convert_to_json data location);
  pure (parse_object location j_data).

(** [ClientHandler.on_error]. *)
Definition on_error (exception : exn) : M unit :=
  match exception with
  | CoreError code _ msg => send (serialize (message.Error code msg))
  | _ => pure (Raise AssertionError)
  end.

(** [ClientHandler.on_wait]. *)
Definition on_wait : M unit := send (serialize (message.Message "wait")).

(** The loop of [advance] over the parsed calls, with the function list
    built so far. *)
Fixpoint call_functions (functions : list (function * kwargs))
    (function_list : list message.CoreMessage) : M (list message.CoreMessage) :=
  match functions with
  | [] => mret function_list
  | (func, func_args) :: functions' =>
      msg ← emit (Invoke func func_args) (call func func_args);
      match msg with
      | RMsg m =>
          call_functions functions'
            (function_list ++ [message.Function (fn_name func) m])
      | RObj _ => pure (Raise AssertionError)
      end
  end.

(** [ClientHandler.advance]. *)
Definition advance (server_ready : bool) (buffer : bytes) : M unit :=
  try_except_CoreError
    (if server_ready then
       functions ← parse buffer;
       function_list ← call_functions functions [];
       send (serialize (message.List "function" function_list))
     else on_wait)
    on_error.

(** *** The receive loop *)

(** The head of the loop body: a buffer that ends with the delimiter is
    advanced and emptied; [None] is the [break] of a stopped handler. *)
Definition dispatch (handler : ClientHandler) (server_ready : bool)
    (buffer : bytes) : M (option bytes) :=
  if endswith buffer postfix then
    if is_active handler
    then advance server_ready buffer ;; mret (Some [])
    else mret None
  else mret (Some buffer).

(** The [while True] loop of [_handle]; when the steps run out the peer
    has closed. *)
Fixpoint serve (world : list recv_step) (handler : ClientHandler)
    (server_ready : bool) (buffer : bytes) : M unit :=
  next ← dispatch handler server_ready buffer;
  match next with
  | None => mret tt
  | Some buffer =>
      match world with
      | [] => mret tt
      | step :: world' =>
          r ← pure (received step);
          match r with
          | [] => mret tt
          | _ :: _ =>
              serve world'
                {| _address := _address handler; _stopped := now_stopped step |}
                (now_ready step) (buffer ++ r)
          end
      end
  end.

(** [HPServer._handle]. *)
Definition _handle (address : string) (server_ready : bool)
    (world : list recv_step) : M unit :=
  let handler := new_handler address in
  try_except_socket_error (serve world handler server_ready []).


(** *** Validation, as the spec words it *)

(** The arguments of a call: each argument name with its value. *)
Definition call_kwargs (items : list (string * value)) : kwargs :=
  omap (fun x => (fun v => (x, v)) <$> dict_get items x) (arg_names items).

(** A call passes validation when it is an object whose [fname] is a
    string that names a registered operation and whose other keys are
    all among the names that operation accepts; it then stands for that
    operation applied to those arguments. *)
Definition validated_call (f : value) : option (function * kwargs) :=
  match f with
  | VDict items =>
      match dict_get items "fname" with
      | Some (VStr name) =>
          match api !! name with
          | Some func =>
              if forallb (fun arg => str_in arg (co_varnames func)) (arg_names items)
              then Some (func, call_kwargs items)
              else None
          | None => None
          end
      | _ => None
      end
  | _ => None
  end.

(** A function call of the data model: an object with a string [fname]. *)
Definition is_function_call (f : value) : bool :=
  match f with
  | VDict items =>
      match dict_get items "fname" with
      | Some (VStr _) => true
      | _ => false
      end
  | _ => false
  end.

(** An envelope of the data model: an object with exactly the keys
    [name] and [data], in either order, [data] being a list; its calls. *)
Definition envelope_calls (j_data : value) : option (list value) :=
  match j_data with
  | VDict [(k1, v1); (k2, v2)] =>
      if String.eqb k1 "name" && String.eqb k2 "data" then
        match v2 with VList calls => Some calls | _ => None end
      else if String.eqb k1 "data" && String.eqb k2 "name" then
        match v1 with VList calls => Some calls | _ => None end
      else None
  | _ => None
  end.

Definition is_envelope (j_data : value) (calls : list value) : Prop :=
  envelope_calls j_data = Some calls.

(** The event of invoking a parsed call. *)
Definition invocation (fa : function * kwargs) : event := Invoke (fst fa) (snd fa).

(** The result of an invoked call, as it enters the function list. *)
Definition function_result (fa : function * kwargs) (m : message.CoreMessage) :
    message.CoreMessage :=
  message.Function (fn_name (fst fa)) m.

(** An invocation that returns the message [m]. *)
Definition returns (fa : function * kwargs) (m : message.CoreMessage) : Prop :=
  call (fst fa) (snd fa) = Ok (RMsg m).

(** An event that hands the decoder data that still ends with the
    delimiter (any other event counts as such). *)
Definition framed (ev : event) : Prop :=
  match ev with
  | Decode data => exists body, data = body ++ postfix
  | _ => True
  end.

(** *** Further notions *)


(** The keys of a decoded object are pairwise distinct, as those of
    every Python dict are. *)
Definition keys_distinct (j_data : value) : bool :=
  match j_data with
  | VDict items => bool_decide (NoDup (dict_keys items))
  | _ => true
  end.

(** An entry of [data] that is no list in the place of an object and whose
    [fname], when it has one, is hashable. *)
Definition call_shaped (f : value) : bool :=
  match f with
  | VList _ | VTuple _ => false
  | VDict items =>
      match dict_get items "fname" with
      | Some function_name => hashable function_name
      | None => true
      end
  | _ => true
  end.

(** A decoded object that has no list in the place of an object: not at
    the root, and not among the entries of [data]. *)
Definition dict_shaped (j_data : value) : bool :=
  match j_data with
  | VList _ | VTuple _ => false
  | VDict items =>
      match dict_get items "data" with
      | Some (VList fs) => forallb call_shaped fs
      | _ => true
      end
  | _ => true
  end.

(** The second half of the loop body of [_handle], after the dispatch:
    [recv], the [break] on no bytes, the growth of the buffer, and the next
    round of the loop. *)
Definition receive (world : list recv_step) (handler : ClientHandler)
    (buffer : bytes) : M unit :=
  match world with
  | [] => mret tt
  | step :: world' =>
      r ← pure (received step);
      match r with
      | [] => mret tt
      | _ :: _ =>
          serve world'
            {| _address := _address handler; _stopped := now_stopped step |}
            (now_ready step) (buffer ++ r)
      end
  end.

(** A [recv] that returns the bytes [data]; the flags are those of the
    server and of the handler at that moment. *)
Definition recv_data (data : bytes) (server_ready stopped : bool) : recv_step :=
  {| received := Ok data; now_ready := server_ready; now_stopped := stopped |}.

(** A connection on which every [recv] returns one frame, with the
    readiness of the server at that moment; the handler stays active. *)
Definition frame_steps (frames : list (bytes * bool)) : list recv_step :=
  map (fun frame => recv_data (fst frame) (snd frame) false) frames.

(** ** Properties *)

(** *** The trace monad *)

Lemma bind_Ok {A B} (m : M A) (f : A -> M B) (a : A) :
  outcome m = Ok a -> m ≫= f = Run (events m ++ events (f a)) (outcome (f a)).
Proof. intros H. unfold mbind, M_bind. now rewrite H. Qed.

Lemma bind_Raise {A B} (m : M A) (f : A -> M B) (e : exn) :
  outcome m = Raise e -> m ≫= f = Run (events m) (Raise e).
Proof. intros H. unfold mbind, M_bind. now rewrite H. Qed.

Lemma M_eta {A} (m : M A) : Run (events m) (outcome m) = m.
Proof. now destruct m. Qed.

(** *** [parse] *)

Lemma parse_events data : events (parse data) = [Decode data].
Proof.
  unfold parse, emit, pure, mbind, M_bind. simpl.
  now destruct (convert_to_json data "Message parsing").
Qed.

Lemma parse_outcome data :
  outcome (parse data) =
  convert_to_json data "Message parsing" ≫= parse_object "Message parsing".
Proof.
  unfold parse, emit, pure, mbind at 1, M_bind. simpl.
  now destruct (convert_to_json data "Message parsing").
Qed.

Lemma parse_run data :
  parse data =
  Run [Decode data]
      (convert_to_json data "Message parsing" ≫= parse_object "Message parsing").
Proof. now rewrite <- parse_outcome, <- parse_events, M_eta. Qed.

(** *** The loop of [advance] *)

Lemma call_functions_all fas ms acc :
  Forall2 returns fas ms ->
  call_functions fas acc =
  Run (map invocation fas) (Ok (acc ++ zip_with function_result fas ms)).
Proof.
  intros H. revert acc.
  induction H as [|[func func_args] m fas ms Hm _ IH]; intros acc; simpl.
  - now rewrite app_nil_r.
  - unfold returns in Hm. simpl in Hm.
    rewrite (bind_Ok _ _ (RMsg m)) by (simpl; exact Hm).
    rewrite IH. simpl. unfold function_result at 2. simpl.
    now rewrite <- app_assoc.
Qed.

Lemma call_functions_raises done fa rest ms e acc :
  Forall2 returns done ms ->
  call (fst fa) (snd fa) = Raise e ->
  call_functions (done ++ fa :: rest) acc =
  Run (map invocation done ++ [invocation fa]) (Raise e).
Proof.
  intros H He. revert acc.
  induction H as [|[func func_args] m fas ms Hm _ IH]; intros acc; simpl.
  - destruct fa as [func func_args]. simpl in He.
    now rewrite (bind_Raise _ _ e) by (simpl; exact He).
  - unfold returns in Hm. simpl in Hm.
    rewrite (bind_Ok _ _ (RMsg m)) by (simpl; exact Hm).
    now rewrite IH.
Qed.

Lemma call_functions_no_calls acc : call_functions [] acc = Run [] (Ok acc).
Proof. reflexivity. Qed.

(** *** [advance] on a ready server, by the outcome of [parse] *)

Lemma advance_parse_CoreError buffer code location msg :
  outcome (parse buffer) = Raise (CoreError code location msg) ->
  advance true buffer =
  Run [Decode buffer; Sendall (serialize (message.Error code msg)); Sendall postfix]
      (Ok tt).
Proof.
  intros H. unfold advance.
  rewrite (bind_Raise _ _ _ H), parse_events.
  reflexivity.
Qed.

Lemma advance_parse_escapes buffer e :
  outcome (parse buffer) = Raise e -> is_CoreError e = false ->
  advance true buffer = Run [Decode buffer] (Raise e).
Proof.
  intros H He. unfold advance.
  rewrite (bind_Raise _ _ _ H), parse_events.
  now destruct e.
Qed.

Lemma advance_calls_return buffer fas evs function_list :
  outcome (parse buffer) = Ok fas ->
  call_functions fas [] = Run evs (Ok function_list) ->
  advance true buffer =
  Run (Decode buffer :: evs ++
       [Sendall (serialize (message.List "function" function_list)); Sendall postfix])
      (Ok tt).
Proof.
  intros H Hc. unfold advance.
  rewrite (bind_Ok _ _ _ H), parse_events, Hc.
  reflexivity.
Qed.

Lemma advance_call_CoreError buffer fas evs code location msg :
  outcome (parse buffer) = Ok fas ->
  call_functions fas [] = Run evs (Raise (CoreError code location msg)) ->
  advance true buffer =
  Run (Decode buffer :: evs ++
       [Sendall (serialize (message.Error code msg)); Sendall postfix])
      (Ok tt).
Proof.
  intros H Hc. unfold advance.
  rewrite (bind_Ok _ _ _ H), parse_events, Hc.
  reflexivity.
Qed.

(** *** Loops that may raise *)

Lemma map_res_Ok {A B} (body : A -> res B) xs ys :
  map_res body xs = Ok ys <-> Forall2 (fun x y => body x = Ok y) xs ys.
Proof.
  revert ys. induction xs as [|x xs IH]; intros ys; simpl.
  - split.
    + intros [= <-]. constructor.
    + intros H. now inversion H.
  - destruct (body x) as [y|e] eqn:Hx; simpl.
    + destruct (map_res body xs) as [ys'|e] eqn:Hxs; simpl.
      * split.
        -- intros [= <-]. constructor; [exact Hx | now apply IH].
        -- intros H. inversion H as [|? y0 ? ys0 Hy Hys]; subst.
           apply IH in Hys. congruence.
      * split; [discriminate|].
        intros H. inversion H as [|? y0 ? ys0 Hy Hys]; subst.
        apply IH in Hys. discriminate.
    + split; [discriminate|].
      intros H. inversion H; subst. congruence.
Qed.

Lemma map_res_Raise {A B} (body : A -> res B) pre ys x rest e :
  Forall2 (fun x y => body x = Ok y) pre ys ->
  body x = Raise e ->
  map_res body (pre ++ x :: rest) = Raise e.
Proof.
  intros H Hx. induction H as [|x0 y0 pre ys Hy _ IH]; simpl.
  - now rewrite Hx.
  - now rewrite Hy, IH.
Qed.

(** A loop that raises stops at the first item whose body raises. *)
Lemma map_res_Raise_inv {A B} (body : A -> res B) xs e :
  map_res body xs = Raise e ->
  exists pre ys x rest,
    xs = pre ++ x :: rest /\
    Forall2 (fun x y => body x = Ok y) pre ys /\ body x = Raise e.
Proof.
  induction xs as [|x xs IH]; simpl; [discriminate|].
  destruct (body x) as [y|e'] eqn:Hx; simpl.
  - destruct (map_res body xs) as [ys'|e'] eqn:Hxs; simpl; [discriminate|].
    intros [= ->]. destruct (IH eq_refl) as (pre & ys & x' & rest & -> & Hpre & Hx').
    exists (x :: pre), (y :: ys), x', rest. repeat split; auto.
  - intros [= ->]. exists [], [], x, xs. repeat split; auto.
Qed.

Lemma for_each_Ok {A} (body : A -> res unit) xs :
  for_each xs body = Ok tt <-> Forall (fun x => body x = Ok tt) xs.
Proof.
  induction xs as [|x xs IH]; simpl.
  - split; auto.
  - destruct (body x) as [[]|e] eqn:Hx; simpl.
    + rewrite IH. split.
      * intros H. now constructor.
      * intros H. now inversion H.
    + split; [discriminate|].
      intros H. inversion H; subst. congruence.
Qed.

(** *** Dicts *)

Lemma str_in_In x xs : str_in x xs = true <-> In x xs.
Proof.
  unfold str_in. rewrite existsb_exists. split.
  - intros (y & Hy & Heq). apply String.eqb_eq in Heq. now subst.
  - intros H. exists x. split; [exact H | apply String.eqb_refl].
Qed.

Lemma dict_get_Some_key items key v :
  dict_get items key = Some v -> str_in key (dict_keys items) = true.
Proof.
  unfold dict_get. intros H.
  destruct (find _ items) as [kv|] eqn:Hf; [|discriminate].
  apply find_some in Hf as [Hin Heq]. apply String.eqb_eq in Heq. subst key.
  apply str_in_In. unfold dict_keys. now apply in_map.
Qed.

Lemma key_dict_get items key :
  In key (dict_keys items) -> exists v, dict_get items key = Some v.
Proof.
  unfold dict_keys, dict_get. intros H. apply in_map_iff in H as ([k v] & <- & Hin).
  destruct (find _ items) as [kv|] eqn:Hf.
  - now exists (snd kv).
  - exfalso. apply (find_none _ _ Hf) in Hin. simpl in Hin.
    now rewrite String.eqb_refl in Hin.
Qed.

Lemma arg_names_keys items x : In x (arg_names items) -> In x (dict_keys items).
Proof.
  unfold arg_names. intros H.
  apply list_elem_of_In, list_elem_of_filter in H as [_ H].
  now apply list_elem_of_In.
Qed.

Lemma getitems_built items keys :
  (forall x, In x keys -> In x (dict_keys items)) ->
  map_res (fun x => v ← py_getitem (VDict items) x; Ok (x, v)) keys
  = Ok (omap (fun x => (fun v => (x, v)) <$> dict_get items x) keys).
Proof.
  induction keys as [|x xs IH]; intros H; [reflexivity|].
  destruct (key_dict_get items x) as [v Hv]; [apply H; now left|].
  cbn [map_res omap list_omap]. rewrite IH by (intros y Hy; apply H; now right).
  unfold py_getitem. rewrite Hv. reflexivity.
Qed.

(** The dict of arguments that [parse] builds for a call. *)
Lemma call_kwargs_built items :
  map_res (fun x => v ← py_getitem (VDict items) x; Ok (x, v)) (arg_names items)
  = Ok (call_kwargs items).
Proof. apply getitems_built, arg_names_keys. Qed.

Lemma dict_get_item items kv :
  NoDup (dict_keys items) -> In kv items -> dict_get items (fst kv) = Some (snd kv).
Proof.
  unfold dict_get, dict_keys.
  induction items as [|[k v] items IH]; intros Hnodup Hin; [destruct Hin|].
  change (map fst ((k, v) :: items)) with (k :: map fst items) in Hnodup.
  apply NoDup_cons in Hnodup as [Hk Hnodup]. simpl.
  destruct Hin as [<- | Hin]; simpl.
  - now rewrite String.eqb_refl.
  - destruct (String.eqb k (fst kv)) eqn:Heq; [|now apply IH].
    exfalso. apply String.eqb_eq in Heq. subst k. apply Hk, list_elem_of_In.
    exact (in_map fst items kv Hin).
Qed.

(** The arguments of a call are the items of its dict other than [fname],
    in the order of the dict. *)
Lemma call_kwargs_items items :
  NoDup (dict_keys items) ->
  call_kwargs items = filter (fun kv => negb (str_in (fst kv) function_keys)) items.
Proof.
  intros Hnodup. unfold call_kwargs, arg_names, dict_keys.
  assert (H : forall l, (forall kv, In kv l -> In kv items) ->
            omap (fun x => (fun v => (x, v)) <$> dict_get items x)
                 (filter (fun arg => negb (str_in arg function_keys)) (map fst l))
            = filter (fun kv => negb (str_in (fst kv) function_keys)) l).
  { induction l as [|[k v] l IH]; intros Hl; [reflexivity|].
    simpl map. rewrite !filter_cons. simpl fst.
    destruct (decide _) as [Hk|Hk].
    - pose proof (dict_get_item items (k, v) Hnodup (Hl _ (or_introl eq_refl))) as Hget.
      simpl in Hget. cbn [omap list_omap]. rewrite Hget.
      simpl. f_equal. apply IH. intros kv Hkv. apply Hl. now right.
    - apply IH. intros kv Hkv. apply Hl. now right. }
  now apply H.
Qed.

(** *** Validation of one call *)

Local Arguments String.append : simpl never.

Lemma check_missing_fname location items :
  _check_missing location "Function message" (str_tuple function_keys) (VDict items)
  = if str_in "fname" (dict_keys items) then Ok tt
    else Raise (InvalidMessage location "Function message missing 'fname' key").
Proof.
  unfold _check_missing, _check_required_key. simpl.
  unfold str_in. now destruct (existsb _ _).
Qed.

Lemma check_arguments location name func items :
  for_each (arg_names items) (fun arg =>
    if str_in arg (co_varnames func) then Ok tt
    else Raise (InvalidMessage location
                  ("Unexpected argument in function '" +:+ name
                   +:+ "': '" +:+ arg +:+ "'")))
  = Ok tt
  <-> forallb (fun arg => str_in arg (co_varnames func)) (arg_names items) = true.
Proof.
  rewrite for_each_Ok, forallb_forall, Forall_forall. unfold elem_of.
  split; intros H x Hx.
  - apply list_elem_of_In in Hx. specialize (H x Hx).
    now destruct (str_in x (co_varnames func)).
  - apply list_elem_of_In in Hx. now rewrite (H x Hx).
Qed.

(** [parse] accepts a call exactly when it passes validation, and then
    yields the operation and arguments it stands for. *)
Lemma parse_function_Ok location f fa :
  parse_function location f = Ok fa <-> validated_call f = Some fa.
Proof.
  unfold parse_function, validated_call.
  destruct f as [| | | | |items|items|items];
    try (destruct (_check_missing _ _ _ _) as [[]|]; simpl; split; discriminate).
  rewrite check_missing_fname.
  destruct (dict_get items "fname") as [function_name|] eqn:Hname.
  - rewrite (dict_get_Some_key _ _ _ Hname). simpl. rewrite Hname. simpl.
    unfold api_get.
    destruct function_name as [| | | |name| | |]; simpl;
      try (split; discriminate).
    + destruct (api !! name) as [func|]; simpl; [|split; discriminate].
      pose proof (check_arguments location name func items) as Hargs.
      destruct (forallb _ (arg_names items)).
      * rewrite (proj2 Hargs eq_refl). simpl. pose proof (call_kwargs_built items) as Hk. simpl in Hk. rewrite Hk. simpl.
        split; congruence.
      * destruct (for_each _ _) as [[]|e]; simpl.
        -- destruct Hargs as [Hargs _]. specialize (Hargs eq_refl). discriminate.
        -- split; discriminate.
    + destruct (forallb hashable items0); simpl; split; discriminate.
  - destruct (str_in "fname" (dict_keys items)); simpl; [rewrite Hname|];
      simpl; split; discriminate.
Qed.

Lemma parse_function_list location calls fas :
  map_res (parse_function location) calls = Ok fas <->
  Forall2 (fun f fa => validated_call f = Some fa) calls fas.
Proof.
  rewrite map_res_Ok.
  split; intros H; induction H as [|f fa' calls fas Hf _ IH].
  - apply Forall2_nil_2.
  - apply Forall2_cons_2; [exact (proj1 (parse_function_Ok _ _ _) Hf) | exact IH].
  - apply Forall2_nil_2.
  - apply Forall2_cons_2; [exact (proj2 (parse_function_Ok _ _ _) Hf) | exact IH].
Qed.

(** *** The root of the request *)

Lemma parse_object_envelope location j_data calls :
  is_envelope j_data calls ->
  parse_object location j_data = map_res (parse_function location) calls.
Proof.
  unfold is_envelope, envelope_calls.
  destruct j_data as [| | | | | | |[|[k1 v1] [|[k2 v2] [|]]]]; try discriminate.
  destruct (String.eqb k1 "name" && String.eqb k2 "data") eqn:Hnd.
  - apply andb_prop in Hnd as [->%String.eqb_eq ->%String.eqb_eq].
    destruct v2; try discriminate. now intros [= ->].
  - destruct (String.eqb k1 "data" && String.eqb k2 "name") eqn:Hdn; [|discriminate].
    apply andb_prop in Hdn as [->%String.eqb_eq ->%String.eqb_eq].
    destruct v1; try discriminate. now intros [= ->].
Qed.

(** The data of a request that [parse] accepts is a list of calls that
    all pass validation. *)
Lemma parse_object_Ok location j_data fas :
  parse_object location j_data = Ok fas ->
  exists calls,
    py_getitem j_data "data" = Ok (VList calls) /\
    Forall2 (fun f fa => validated_call f = Some fa) calls fas.
Proof.
  unfold parse_object.
  destruct (_check_both _ _ _ _) as [[]|]; simpl; [|discriminate].
  destruct (py_getitem j_data "data") as [msg_data|]; simpl; [|discriminate].
  destruct msg_data; try discriminate.
  intros H. eexists. split; [reflexivity|].
  exact (proj1 (parse_function_list _ _ _) H).
Qed.

(** *** The readiness gate *)

Lemma advance_not_ready buffer :
  advance false buffer =
  Run [Sendall (serialize (message.Message "wait")); Sendall postfix] (Ok tt).
Proof. reflexivity. Qed.

(** C1. A frame that is dispatched while [constants.server_ready] is unset
    is answered with the wait message, whose body is [{"type":"wait"}],
    followed by the delimiter, and with nothing else: the frame is not
    decoded, whatever its bytes are, and no operation is invoked. *)
Theorem wait_when_not_ready buffer :
  advance false buffer =
  Run [Sendall (dumps (VDict [("type", VStr "wait")])); Sendall postfix] (Ok tt)
  /\ Forall (fun ev => is_Decode ev = false /\ is_Invoke ev = false)
             (events (advance false buffer)).
Proof.
  rewrite advance_not_ready. split; [reflexivity|].
  repeat constructor.
Qed.

(** *** Batches on a ready server *)

(** C2. When the calls before some call of a parsed batch return their
    messages and that call raises a [CoreError], the calls after it are
    not invoked and the only message sent is the error message with the
    code and message of that failure: the function results computed so
    far are dropped. *)
Theorem operation_failure_discards_results
    buffer done failing rest results code location msg :
  outcome (parse buffer) = Ok (done ++ failing :: rest) ->
  Forall2 returns done results ->
  call (fst failing) (snd failing) = Raise (CoreError code location msg) ->
  advance true buffer =
  Run (Decode buffer :: map invocation done ++ [invocation failing] ++
       [Sendall (dumps (VDict [("type", VStr "error"); ("code", VInt code);
                               ("message", VStr msg)]));
        Sendall postfix])
      (Ok tt).
Proof.
  intros Hparse Hdone Hfail.
  rewrite (advance_call_CoreError buffer _ _ code location msg Hparse
             (call_functions_raises done failing rest results _ [] Hdone Hfail)).
  now rewrite <- app_assoc.
Qed.

(** C7. When the request is an envelope whose calls all pass validation
    and every invocation returns a message, the operations are invoked
    one after the other in the order of [data], and the function list
    that is sent holds one function result per call, in that order. *)
Theorem calls_invoked_in_order buffer j_data calls fas results :
  convert_to_json buffer "Message parsing" = Ok j_data ->
  is_envelope j_data calls ->
  Forall2 (fun f fa => validated_call f = Some fa) calls fas ->
  Forall2 returns fas results ->
  advance true buffer =
  Run (Decode buffer :: map invocation fas ++
       [Sendall (serialize
                   (message.List "function" (zip_with function_result fas results)));
        Sendall postfix])
      (Ok tt).
Proof.
  intros Hjson Henv Hvalid Hret.
  apply advance_calls_return with (fas := fas).
  - rewrite parse_outcome, Hjson. simpl.
    rewrite (parse_object_envelope _ _ _ Henv).
    exact (proj2 (parse_function_list _ _ _) Hvalid).
  - exact (call_functions_all fas results [] Hret).
Qed.

(** C8. The request [{"name":"x","data":[]}] on a ready server parses to
    the empty list of calls; nothing is invoked and the empty function
    list, [{"type":"function","data":[]}], is sent. *)
Theorem empty_batch buffer :
  convert_to_json buffer "Message parsing"
  = Ok (VDict [("name", VStr "x"); ("data", VList [])]) ->
  outcome (parse buffer) = Ok [] /\
  advance true buffer =
  Run [Decode buffer;
       Sendall (dumps (VDict [("type", VStr "function"); ("data", VList [])]));
       Sendall postfix]
      (Ok tt).
Proof.
  intros Hjson.
  assert (Hparse : outcome (parse buffer) = Ok [])
    by (rewrite parse_outcome, Hjson; reflexivity).
  split; [exact Hparse|].
  exact (advance_calls_return buffer [] [] [] Hparse (call_functions_no_calls [])).
Qed.

(** *** What escapes the dispatch boundary *)

(** A root that is the list of the two key names passes [_check_both];
    the subscript that follows raises a [TypeError], which [advance] does
    not catch. *)
Lemma root_list_TypeError buffer :
  convert_to_json buffer "Message parsing" = Ok (VList [VStr "name"; VStr "data"]) ->
  advance true buffer = Run [Decode buffer] (Raise TypeError).
Proof.
  intros Hjson. apply advance_parse_escapes; [|reflexivity].
  rewrite parse_outcome, Hjson. reflexivity.
Qed.

(** *** Validation comes first *)

Lemma advance_parse_Raise_no_invocation buffer e :
  outcome (parse buffer) = Raise e ->
  Forall (fun ev => is_Invoke ev = false) (events (advance true buffer)).
Proof.
  intros H. destruct e as [code location msg| | | |].
  1: rewrite (advance_parse_CoreError _ _ _ _ H).
  2-5: rewrite (advance_parse_escapes _ _ H eq_refl).
  all: repeat constructor.
Qed.

Lemma validated_all_or_none calls fas :
  Forall2 (fun f fa => validated_call f = Some fa) calls fas ->
  Exists (fun f => validated_call f = None) calls -> False.
Proof.
  intros H. induction H as [|f fa calls fas Hf _ IH]; intros Hex.
  - inversion Hex.
  - inversion Hex as [? ? Hnone|? ? Hrest]; subst; [congruence | auto].
Qed.

(** C9. Validation of the whole batch precedes every invocation: an
    operation is invoked only when the frame was decoded and every call
    of its data passed validation (name resolution and argument-key
    check); hence when some call of the data fails validation no
    operation runs at all, not even for the valid calls before it. *)
Theorem validation_precedes_invocation server_ready buffer :
  (Exists (fun ev => is_Invoke ev = true) (events (advance server_ready buffer)) ->
   server_ready = true /\
   exists j_data calls fas,
     convert_to_json buffer "Message parsing" = Ok j_data /\
     py_getitem j_data "data" = Ok (VList calls) /\
     Forall2 (fun f fa => validated_call f = Some fa) calls fas)
  /\
  (forall j_data calls,
     convert_to_json buffer "Message parsing" = Ok j_data ->
     py_getitem j_data "data" = Ok (VList calls) ->
     Exists (fun f => validated_call f = None) calls ->
     Forall (fun ev => is_Invoke ev = false) (events (advance server_ready buffer))).
Proof.
  assert (Hinv : Exists (fun ev => is_Invoke ev = true)
                   (events (advance server_ready buffer)) ->
                 server_ready = true /\
                 exists fas, outcome (parse buffer) = Ok fas).
  { intros Hex. destruct server_ready.
    - split; [reflexivity|].
      destruct (outcome (parse buffer)) as [fas|e] eqn:Hparse; [now exists fas|].
      exfalso. pose proof (advance_parse_Raise_no_invocation _ _ Hparse) as Hno.
      apply Exists_exists in Hex as (ev & Hin & Hev).
      rewrite Forall_forall in Hno. specialize (Hno ev Hin). congruence.
    - exfalso. rewrite advance_not_ready in Hex.
      apply Exists_exists in Hex as (ev & Hin & Hev).
      apply list_elem_of_In in Hin. simpl in Hin.
      destruct Hin as [<- | [<- | []]]; discriminate. }
  assert (Hall : forall fas, outcome (parse buffer) = Ok fas ->
                 exists j_data calls,
                   convert_to_json buffer "Message parsing" = Ok j_data /\
                   py_getitem j_data "data" = Ok (VList calls) /\
                   Forall2 (fun f fa => validated_call f = Some fa) calls fas).
  { intros fas Hparse. rewrite parse_outcome in Hparse.
    destruct (convert_to_json buffer "Message parsing") as [j_data|] eqn:Hjson;
      [|discriminate].
    simpl in Hparse. apply parse_object_Ok in Hparse as (calls & Hdata & Hvalid).
    now exists j_data, calls. }
  split.
  - intros Hex. destruct (Hinv Hex) as [-> [fas Hparse]].
    split; [reflexivity|].
    destruct (Hall fas Hparse) as (j_data & calls & H). now exists j_data, calls, fas.
  - intros j_data calls Hjson Hdata Hbad.
    apply Forall_forall. intros ev Hin.
    destruct (is_Invoke ev) eqn:Hev; [exfalso|reflexivity].
    assert (Hex : Exists (fun ev => is_Invoke ev = true)
                    (events (advance server_ready buffer)))
      by (apply Exists_exists; now exists ev).
    destruct (Hinv Hex) as [_ [fas Hparse]].
    destruct (Hall fas Hparse) as (j_data' & calls' & Hjson' & Hdata' & Hvalid).
    rewrite Hjson in Hjson'. injection Hjson' as <-.
    rewrite Hdata in Hdata'. injection Hdata' as <-.
    exact (validated_all_or_none _ _ Hvalid Hbad).
Qed.

(** *** Calls that fail validation *)

Lemma for_each_Raise {A} (body : A -> res unit) xs e :
  for_each xs body = Raise e -> exists x, In x xs /\ body x = Raise e.
Proof.
  induction xs as [|x xs IH]; simpl; [discriminate|].
  destruct (body x) as [[]|e'] eqn:Hx; simpl.
  - intros H. destruct (IH H) as (y & Hy & Hb). exists y. auto.
  - intros [= ->]. exists x. auto.
Qed.

Lemma parse_function_unknown location items name :
  dict_get items "fname" = Some (VStr name) ->
  api !! name = None ->
  parse_function location (VDict items)
  = Raise (InvalidMessage location ("Function not found: '" +:+ name +:+ "'")).
Proof.
  intros Hname Hapi. unfold parse_function.
  rewrite check_missing_fname, (dict_get_Some_key _ _ _ Hname). simpl.
  rewrite Hname. simpl. now rewrite Hapi.
Qed.

(** A function call of the data model is either accepted or refused
    with an [InvalidMessage]. *)
Lemma parse_function_call_Raise location f e :
  is_function_call f = true ->
  parse_function location f = Raise e ->
  exists msg, e = InvalidMessage location msg.
Proof.
  destruct f as [| | | | | | |items]; try discriminate. simpl.
  destruct (dict_get items "fname") as [[| | | |name| | |]|] eqn:Hname;
    try discriminate.
  intros _. unfold parse_function.
  rewrite check_missing_fname, (dict_get_Some_key _ _ _ Hname). simpl.
  rewrite Hname. simpl.
  destruct (api !! name) as [func|]; simpl.
  - destruct (for_each _ _) as [[]|e'] eqn:Hargs; simpl.
    + pose proof (call_kwargs_built items) as Hk. simpl in Hk. rewrite Hk.
      discriminate.
    + intros [= ->]. apply for_each_Raise in Hargs as (arg & _ & Harg).
      destruct (str_in arg (co_varnames func)); [discriminate|].
      injection Harg as <-. eexists. reflexivity.
  - intros [= <-]. eexists. reflexivity.
Qed.

Lemma validated_call_unexpected items name func arg :
  dict_get items "fname" = Some (VStr name) ->
  api !! name = Some func ->
  In arg (arg_names items) ->
  ~ In arg (co_varnames func) ->
  validated_call (VDict items) = None.
Proof.
  intros Hname Hapi Harg Hnot. simpl. rewrite Hname, Hapi.
  destruct (forallb _ _) eqn:Hall; [|reflexivity].
  exfalso. apply Hnot, str_in_In.
  rewrite forallb_forall in Hall. apply Hall, Harg.
Qed.

(** C6. On a ready server, when the request is an envelope of function
    calls and one of them carries an argument key that is not among the
    declared formal parameters of the operation its [fname] resolves to
    (an operation without local variables, so that the names the handler
    accepts, [co_varnames], are its formal parameters), the check is made
    before any invocation: exactly one error message is sent and no
    operation is invoked. *)
Theorem unexpected_argument_rejected
    buffer j_data calls items name func arg :
  convert_to_json buffer "Message parsing" = Ok j_data ->
  is_envelope j_data calls ->
  Forall (fun f => is_function_call f = true) calls ->
  In (VDict items) calls ->
  dict_get items "fname" = Some (VStr name) ->
  api !! name = Some func ->
  co_varnames func = formals func ->
  In arg (arg_names items) ->
  ~ In arg (formals func) ->
  exists code msg,
    advance true buffer =
    Run [Decode buffer;
         Sendall (dumps (VDict [("type", VStr "error"); ("code", VInt code);
                                ("message", VStr msg)]));
         Sendall postfix]
        (Ok tt).
Proof.
  intros Hjson Henv Hcalls Hin Hname Hapi Hformals Harg Hnot.
  rewrite <- Hformals in Hnot.
  pose proof (validated_call_unexpected _ _ _ _ Hname Hapi Harg Hnot) as Hnone.
  assert (Hparse : outcome (parse buffer)
                   = map_res (parse_function "Message parsing") calls).
  { rewrite parse_outcome, Hjson. simpl. now apply parse_object_envelope. }
  destruct (map_res (parse_function "Message parsing") calls) as [fas|e] eqn:Hmap.
  - exfalso. apply (validated_all_or_none calls fas).
    + exact (proj1 (parse_function_list _ _ _) Hmap).
    + apply Exists_exists. exists (VDict items). split; [|exact Hnone].
      now apply list_elem_of_In.
  - apply map_res_Raise_inv in Hmap as (pre & ys & f & rest & -> & _ & Hf).
    assert (Hcall : is_function_call f = true).
    { rewrite Forall_forall in Hcalls. apply Hcalls, list_elem_of_In, in_elt. }
    destruct (parse_function_call_Raise _ _ _ Hcall Hf) as [msg ->].
    exists InvalidMessage_code, msg.
    exact (advance_parse_CoreError _ _ _ _ Hparse).
Qed.

(** C5, amended. On a ready server, when the request is an envelope
    whose first call that fails validation names an operation that is
    absent from the registry (the calls before it pass validation),
    exactly one error message is sent, which says
    [Function not found: '<name>'], and no operation is invoked. *)
Theorem unknown_function_reported buffer j_data valid fas items name rest :
  convert_to_json buffer "Message parsing" = Ok j_data ->
  is_envelope j_data (valid ++ VDict items :: rest) ->
  Forall2 (fun f fa => validated_call f = Some fa) valid fas ->
  dict_get items "fname" = Some (VStr name) ->
  api !! name = None ->
  advance true buffer =
  Run [Decode buffer;
       Sendall (dumps (VDict [("type", VStr "error"); ("code", VInt InvalidMessage_code);
                              ("message",
                               VStr ("Function not found: '" +:+ name +:+ "'"))]));
       Sendall postfix]
      (Ok tt).
Proof.
  intros Hjson Henv Hvalid Hname Hapi.
  apply advance_parse_CoreError with (location := "Message parsing").
  rewrite parse_outcome, Hjson. simpl.
  rewrite (parse_object_envelope _ _ _ Henv).
  apply map_res_Raise with (ys := fas).
  - exact (proj1 (map_res_Ok _ _ _) (proj2 (parse_function_list _ _ _) Hvalid)).
  - now apply parse_function_unknown.
Qed.

(** *** Framing *)

Lemma startswith_prefix data prefix :
  startswith data prefix = true -> exists rest, data = prefix ++ rest.
Proof.
  revert data. induction prefix as [|p prefix IH]; intros data; simpl.
  - intros _. now exists data.
  - destruct data as [|d data]; [discriminate|].
    intros H. apply andb_prop in H as [Hp Hrest].
    apply byte_dec_bl in Hp as ->.
    destruct (IH _ Hrest) as [rest ->]. now exists rest.
Qed.

Lemma endswith_suffix data suffix :
  endswith data suffix = true -> exists body, data = body ++ suffix.
Proof.
  unfold endswith. intros H.
  apply startswith_prefix in H as [rest H].
  exists (rev rest).
  rewrite <- (rev_involutive data), H, rev_app_distr.
  now rewrite rev_involutive.
Qed.

Lemma Forall_events_bind {A B} (P : event -> Prop) (m : M A) (f : A -> M B) :
  Forall P (events m) ->
  (forall a, Forall P (events (f a))) ->
  Forall P (events (m ≫= f)).
Proof.
  intros Hm Hf. unfold mbind, M_bind.
  destruct (outcome m); simpl; [|exact Hm].
  apply Forall_app. split; [exact Hm | apply Hf].
Qed.

Lemma Forall_events_try {A} (P : event -> Prop) (body : M A) handler :
  Forall P (events body) ->
  (forall e, Forall P (events (handler e))) ->
  Forall P (events (try_except_CoreError body handler)).
Proof.
  intros Hm Hh. unfold try_except_CoreError.
  destruct (outcome body) as [|[]]; simpl; try exact Hm.
  apply Forall_app. split; [exact Hm | apply Hh].
Qed.

Lemma send_framed msg : Forall framed (events (send msg)).
Proof. repeat constructor. Qed.

Lemma call_functions_framed fas acc : Forall framed (events (call_functions fas acc)).
Proof.
  revert acc. induction fas as [|[func func_args] fas IH]; intros acc; simpl.
  - constructor.
  - apply Forall_events_bind; [repeat constructor|].
    intros [m|v]; [apply IH | constructor].
Qed.

Lemma advance_framed server_ready buffer :
  endswith buffer postfix = true ->
  Forall framed (events (advance server_ready buffer)).
Proof.
  intros Hend. unfold advance. apply Forall_events_try.
  - destruct server_ready; [|apply send_framed].
    apply Forall_events_bind.
    + rewrite parse_events. constructor; [|constructor].
      now apply endswith_suffix.
    + intros fas. apply Forall_events_bind; [apply call_functions_framed|].
      intros function_list. apply send_framed.
  - intros [code location msg| | | |]; [apply send_framed | constructor ..].
Qed.

Lemma dispatch_framed handler server_ready buffer :
  Forall framed (events (dispatch handler server_ready buffer)).
Proof.
  unfold dispatch. destruct (endswith buffer postfix) eqn:Hend; [|constructor].
  destruct (is_active handler); [|constructor].
  apply Forall_events_bind; [now apply advance_framed | constructor].
Qed.

Lemma serve_framed world handler server_ready buffer :
  Forall framed (events (serve world handler server_ready buffer)).
Proof.
  revert handler server_ready buffer.
  induction world as [|step world IH]; intros handler server_ready buffer; simpl;
    (apply Forall_events_bind; [apply dispatch_framed|]);
    intros [buffer'|]; try constructor.
  apply Forall_events_bind; [constructor|].
  intros [|r0 r]; [constructor | apply IH].
Qed.

Lemma dispatch_advances handler server_ready buffer :
  endswith buffer postfix = true ->
  is_active handler = true ->
  dispatch handler server_ready buffer
  = advance server_ready buffer ≫= fun _ => mret (Some []).
Proof. intros Hend Hactive. unfold dispatch. now rewrite Hend, Hactive. Qed.

(** C3, amended. When the tail of the accumulated buffer equals the
    delimiter, an active handler on a ready server hands the whole
    buffer, delimiter included, to [parse], which passes it as it is to
    [utils.convert_to_json]: the handler strips nothing, and all the data
    that the decoder is ever handed on a connection ends with the
    delimiter. *)
Theorem decoder_handed_whole_buffer handler buffer address server_ready world :
  (endswith buffer postfix = true ->
   is_active handler = true ->
   exists rest, events (dispatch handler true buffer) = Decode buffer :: rest)
  /\ Forall framed (events (_handle address server_ready world)).
Proof.
  split.
  - intros Hend Hactive. rewrite (dispatch_advances _ _ _ Hend Hactive).
    unfold advance, try_except_CoreError, mbind, M_bind.
    rewrite parse_events.
    destruct (outcome (parse buffer)); simpl.
    + repeat (match goal with
              | |- context [match ?x with _ => _ end] => destruct x; simpl
              end); eexists; reflexivity.
    + destruct e; simpl; eexists; reflexivity.
  - unfold _handle, try_except_socket_error.
    pose proof (serve_framed world (new_handler address) server_ready []) as H.
    destruct (outcome _) as [|[]]; exact H.
Qed.

(** ** Further properties *)

(** *** The key checks *)

Lemma for_each_ext {A} (body body' : A -> res unit) xs :
  (forall x, In x xs -> body x = body' x) ->
  for_each xs body = for_each xs body'.
Proof.
  induction xs as [|x xs IH]; intros H; simpl; [reflexivity|].
  rewrite (H x) by now left. rewrite IH by (intros y Hy; apply H; now right).
  reflexivity.
Qed.

(** A checking loop stops at the first item that fails the check. *)
Lemma for_each_first {A} (p : A -> bool) (err : A -> exn) xs :
  for_each xs (fun x => if p x then Ok tt else Raise (err x))
  = match find (fun x => negb (p x)) xs with
    | Some x => Raise (err x)
    | None => Ok tt
    end.
Proof.
  induction xs as [|x xs IH]; simpl; [reflexivity|].
  destruct (p x); simpl; [exact IH | reflexivity].
Qed.

Lemma for_each_map {A B} (f : A -> B) (body : B -> res unit) xs :
  for_each (map f xs) body = for_each xs (fun x => body (f x)).
Proof.
  induction xs as [|x xs IH]; simpl; [reflexivity|]. now rewrite IH.
Qed.

Lemma str_in_tuple k keys :
  existsb (fun y => py_eq y (VStr k)) (map VStr keys) = str_in k keys.
Proof.
  unfold str_in. induction keys as [|y keys IH]; simpl; [reflexivity|].
  now rewrite IH, String.eqb_sym.
Qed.

Lemma check_missing_dict location msg keys items :
  _check_missing location msg (str_tuple keys) (VDict items)
  = match find (fun k => negb (str_in k (dict_keys items))) keys with
    | Some k =>
        Raise (InvalidMessage location ((msg +:+ " missing '") +:+ k +:+ "' key"))
    | None => Ok tt
    end.
Proof.
  unfold _check_missing, _check_required_key, str_tuple.
  cbn [for_each _expect_iterable is_list_dict_tuple mbind res_bind py_iter].
  rewrite for_each_map.
  exact (for_each_first (fun k => str_in k (dict_keys items))
           (fun k => InvalidMessage location ((msg +:+ " missing '") +:+ k +:+ "' key"))
           keys).
Qed.

Lemma check_unknown_dict location msg keys items :
  _check_unknown location msg (str_tuple keys) (VDict items)
  = if Nat.eqb (length items) (length keys) then Ok tt
    else match find (fun k => negb (str_in k keys)) (dict_keys items) with
         | Some k =>
             Raise (InvalidMessage location
                      ((msg +:+ " contains unknown key '") +:+ k +:+ "'"))
         | None => Ok tt
         end.
Proof.
  unfold _check_unknown, str_tuple.
  cbn [py_len mbind res_bind]. rewrite length_map.
  destruct (Nat.eqb (length items) (length keys)); [reflexivity|].
  cbn [negb]. unfold _check_required_key.
  cbn [for_each _expect_iterable is_list_dict_tuple mbind res_bind py_iter].
  rewrite for_each_map.
  rewrite (for_each_ext _
             (fun k => if str_in k keys then Ok tt
                       else Raise (InvalidMessage location
                                     ((msg +:+ " contains unknown key '") +:+ k +:+ "'")))).
  - exact (for_each_first (fun k => str_in k keys) _ (dict_keys items)).
  - intros k _. cbn [py_in mbind res_bind]. now rewrite str_in_tuple.
Qed.

Lemma check_both_dict location msg keys items :
  _check_both location msg (str_tuple keys) (VDict items)
  = match find (fun k => negb (str_in k (dict_keys items))) keys with
    | Some k =>
        Raise (InvalidMessage location ((msg +:+ " missing '") +:+ k +:+ "' key"))
    | None =>
        if Nat.eqb (length items) (length keys) then Ok tt
        else match find (fun k => negb (str_in k keys)) (dict_keys items) with
             | Some k =>
                 Raise (InvalidMessage location
                          ((msg +:+ " contains unknown key '") +:+ k +:+ "'"))
             | None => Ok tt
             end
    end.
Proof.
  unfold _check_both. rewrite check_missing_dict, check_unknown_dict.
  now destruct (find _ keys).
Qed.

(** X1. On a dict, [_check_both] reports the first of the required keys,
    in the order of [keys], that the dict lacks; when none is missing and
    the dict has another number of keys than required, it reports the
    first key of the dict, in the order of the dict, that is not required;
    otherwise it passes. *)
Theorem check_both_dict_order location msg keys items :
  _check_both location msg (str_tuple keys) (VDict items)
  = match find (fun k => negb (str_in k (dict_keys items))) keys with
    | Some k =>
        Raise (InvalidMessage location ((msg +:+ " missing '") +:+ k +:+ "' key"))
    | None =>
        if Nat.eqb (length items) (length keys) then Ok tt
        else match find (fun k => negb (str_in k keys)) (dict_keys items) with
             | Some k =>
                 Raise (InvalidMessage location
                          ((msg +:+ " contains unknown key '") +:+ k +:+ "'"))
             | None => Ok tt
             end
    end.
Proof. apply check_both_dict. Qed.

Lemma find_negb_None (p : string -> bool) xs :
  find (fun x => negb (p x)) xs = None <-> forall x, In x xs -> p x = true.
Proof.
  split.
  - intros H x Hx. pose proof (find_none _ _ H x Hx) as Hn. simpl in Hn.
    destruct (p x); [reflexivity | discriminate Hn].
  - intros H. destruct (find _ xs) as [x|] eqn:Hf; [|reflexivity].
    apply find_some in Hf as [Hx Hn]. simpl in Hn. rewrite (H x Hx) in Hn.
    discriminate Hn.
Qed.

Lemma check_both_Ok location msg keys items :
  NoDup keys -> NoDup (dict_keys items) ->
  _check_both location msg (str_tuple keys) (VDict items) = Ok tt <->
  (forall k, In k keys <-> In k (dict_keys items)).
Proof.
  intros Hkeys Hitems.
  assert (Hlen : length (dict_keys items) = length items)
    by (unfold dict_keys; apply length_map).
  apply NoDup_ListNoDup in Hkeys, Hitems.
  split.
  - unfold _check_both. rewrite check_missing_dict.
    destruct (find _ keys) eqn:Hmissing; [discriminate|].
    rewrite find_negb_None in Hmissing.
    assert (Hsub : incl keys (dict_keys items))
      by (intros k Hk; apply str_in_In, Hmissing, Hk).
    cbn [mbind res_bind]. rewrite check_unknown_dict.
    destruct (Nat.eqb (length items) (length keys)) eqn:Heq.
    + intros _ k. split; [apply Hsub|].
      apply Nat.eqb_eq in Heq.
      apply (NoDup_length_incl Hkeys); [lia | exact Hsub].
    + destruct (find _ (dict_keys items)) eqn:Hunknown; [discriminate|].
      rewrite find_negb_None in Hunknown.
      intros _ k. split; [apply Hsub|].
      intros Hk. apply str_in_In, Hunknown, Hk.
  - intros Hsame. rewrite check_both_dict.
    replace (find _ keys) with (@None string).
    2: { symmetry. apply find_negb_None. intros k Hk. now apply str_in_In, Hsame. }
    replace (Nat.eqb (length items) (length keys)) with true; [reflexivity|].
    symmetry. apply Nat.eqb_eq. rewrite <- Hlen.
    apply Nat.le_antisymm; apply NoDup_incl_length; try assumption;
      intros k Hk; now apply Hsame.
Qed.

(** X2. For required keys that are pairwise distinct, [_check_both] passes
    a dict exactly when the keys of the dict are the required keys: none
    is missing and there is no other key. *)
Theorem check_both_exact location msg keys items :
  NoDup keys ->
  NoDup (dict_keys items) ->
  _check_both location msg (str_tuple keys) (VDict items) = Ok tt <->
  (forall k, In k keys <-> In k (dict_keys items)).
Proof. apply check_both_Ok. Qed.

(** *** What [parse] can raise *)

Lemma py_in_Raise x container e : py_in x container = Raise e -> e = TypeError.
Proof.
  destruct container; simpl; try (intros [= <-]; reflexivity); try discriminate.
  - destruct x; simpl; try discriminate; intros [= <-]; reflexivity.
  - destruct (hashable x); [discriminate | intros [= <-]; reflexivity].
Qed.

Lemma check_required_key_Raise location msg required_keys data e :
  _check_required_key location msg required_keys data = Raise e ->
  (exists m, e = InvalidMessage location m) \/
  (e = TypeError /\ is_list_dict_tuple required_keys = true /\ exists xs x,
      py_iter data = Ok xs /\ In x xs /\ py_in x required_keys = Raise TypeError).
Proof.
  unfold _check_required_key. cbn [for_each]. unfold _expect_iterable at 1 2.
  destruct (is_list_dict_tuple required_keys) eqn:Hrequired; cbn [mbind res_bind];
    [|intros [= <-]; left; eexists; reflexivity].
  destruct (is_list_dict_tuple data) eqn:Hdata; cbn [mbind res_bind];
    [|intros [= <-]; left; eexists; reflexivity].
  destruct (py_iter data) as [xs|] eqn:Hiter; [|destruct data; discriminate].
  cbn [mbind res_bind]. intros H.
  apply for_each_Raise in H as (x & Hx & Hbody).
  destruct (py_in x required_keys) as [present|e'] eqn:Hin; cbn [mbind res_bind] in Hbody.
  - destruct present; [discriminate|]. injection Hbody as <-. left. eexists. reflexivity.
  - injection Hbody as ->. pose proof (py_in_Raise _ _ _ Hin) as ->.
    right. split; [reflexivity|]. split; [reflexivity|]. now exists xs, x.
Qed.

Lemma py_in_tuple_Ok x items : py_in x (VTuple items) <> Raise TypeError.
Proof. discriminate. Qed.

Lemma py_in_str_Ok k container :
  is_list_dict_tuple container = true -> py_in (VStr k) container <> Raise TypeError.
Proof. destruct container; discriminate. Qed.

(** The checks of required keys raise nothing but [InvalidMessage]. *)
Lemma check_both_Raise location msg keys data e :
  _check_both location msg (str_tuple keys) data = Raise e ->
  exists m, e = InvalidMessage location m.
Proof.
  unfold _check_both.
  destruct (_check_missing location msg (str_tuple keys) data) as [[]|e'] eqn:Hmissing;
    cbn [mbind res_bind].
  - unfold _check_unknown.
    destruct (py_len data) as [n|] eqn:Hlen; cbn [mbind res_bind].
    + cbn [py_len str_tuple mbind res_bind].
      match goal with |- context [if ?c then _ else _] => destruct c end;
        [|discriminate].
      intros H.
      apply check_required_key_Raise in H as [H | (_ & _ & xs & x & _ & _ & Hin)];
        [exact H|]. now apply py_in_tuple_Ok in Hin.
    + exfalso. unfold _check_missing, _check_required_key in Hmissing.
      destruct data; try discriminate Hlen; discriminate Hmissing.
  - intros [= <-]. unfold _check_missing in Hmissing.
    apply check_required_key_Raise in Hmissing
      as [H | (_ & Hdata & xs & x & Hiter & Hx & Hin)]; [exact H|].
    exfalso. injection Hiter as <-. apply in_map_iff in Hx as (k & <- & _).
    now apply (py_in_str_Ok k data Hdata).
Qed.

Lemma check_missing_getitem location msg key keys data :
  In key keys ->
  _check_missing location msg (str_tuple keys) data = Ok tt ->
  py_getitem data key = Raise KeyError -> False.
Proof.
  intros Hkey Hmissing Hget.
  destruct data as [| | | | | | |items]; try discriminate Hget.
  rewrite check_missing_dict in Hmissing.
  destruct (find _ keys) eqn:Hfind; [discriminate|].
  rewrite find_negb_None in Hfind. specialize (Hfind key Hkey).
  apply str_in_In, key_dict_get in Hfind as [v Hv].
  simpl in Hget. now rewrite Hv in Hget.
Qed.

Lemma py_getitem_Raise data key e :
  py_getitem data key = Raise e ->
  (e = KeyError /\ exists items, data = VDict items) \/
  (e = TypeError /\ forall items, data <> VDict items).
Proof.
  destruct data; simpl; try (intros [= <-]; right; split; [reflexivity | discriminate]).
  destruct (dict_get items key); [discriminate|].
  intros [= <-]. left. split; [reflexivity | now eexists].
Qed.

Lemma parse_function_Raise location f e :
  parse_function location f = Raise e ->
  (exists m, e = InvalidMessage location m) \/ (e = TypeError /\ call_shaped f = false).
Proof.
  unfold parse_function.
  destruct (_check_missing _ _ _ f) as [[]|e'] eqn:Hmissing; cbn [mbind res_bind].
  - destruct f as [| | | | |items|items|items];
      try (exfalso; unfold _check_missing, _check_required_key in Hmissing;
           discriminate Hmissing);
      try (intros [= <-]; right; split; reflexivity).
    destruct (py_getitem (VDict items) "fname") as [function_name|e'] eqn:Hget.
    + cbn [mbind res_bind]. unfold api_get. simpl in Hget.
      destruct (dict_get items "fname") as [v|] eqn:Hname; [|discriminate].
      injection Hget as ->.
      destruct (hashable function_name) eqn:Hhash; cbn [mbind res_bind].
      * destruct (match function_name with VStr s => api !! s | _ => None end).
        -- destruct (for_each _ _) as [[]|e'] eqn:Hargs; cbn [mbind res_bind].
           ++ rewrite call_kwargs_built. discriminate.
           ++ intros [= ->]. apply for_each_Raise in Hargs as (arg & _ & Harg).
              destruct (str_in arg _); [discriminate|].
              injection Harg as <-. left. eexists. reflexivity.
        -- intros [= <-]. left. eexists. reflexivity.
      * intros [= <-]. right. split; [reflexivity|]. simpl. now rewrite Hname.
    + exfalso. apply py_getitem_Raise in Hget as H.
      destruct H as [[-> _] | [_ H]]; [|now apply (H items)].
      apply (check_missing_getitem location "Function message" "fname"
               function_keys (VDict items)); [now left | exact Hmissing | exact Hget].
  - intros [= <-]. left.
    apply check_required_key_Raise in Hmissing
      as [H | (_ & Hf & xs & x & Hiter & Hx & Hin)]; [exact H|].
    exfalso. injection Hiter as <-. destruct Hx as [<- | []].
    now apply (py_in_str_Ok "fname" f Hf).
Qed.

Lemma parse_object_Raise location j_data e :
  parse_object location j_data = Raise e ->
  (exists m, e = InvalidMessage location m) \/ (e = TypeError /\ dict_shaped j_data = false).
Proof.
  unfold parse_object.
  destruct (_check_both _ _ _ j_data) as [[]|e'] eqn:Hboth; cbn [mbind res_bind].
  - destruct (py_getitem j_data "data") as [msg_data|e'] eqn:Hget; cbn [mbind res_bind].
    + destruct j_data as [| | | | | | |items]; try discriminate Hget.
      simpl in Hget. destruct (dict_get items "data") as [v|] eqn:Hdata; [|discriminate].
      injection Hget as ->.
      destruct msg_data as [| | | | |fs| |];
        try (intros [= <-]; left; eexists; reflexivity).
      intros H. apply map_res_Raise_inv in H as (pre & ys & f & rest & -> & _ & Hf).
      apply parse_function_Raise in Hf as [Hf | [-> Hf]]; [now left|].
      right. split; [reflexivity|]. simpl. rewrite Hdata.
      rewrite forallb_app. simpl. rewrite Hf. now rewrite andb_false_r.
    + intros [= <-]. apply py_getitem_Raise in Hget as H.
      destruct H as [[-> [items ->]] | [-> H]].
      * exfalso. unfold _check_both in Hboth.
        destruct (_check_missing _ _ _ (VDict items)) as [[]|] eqn:Hmissing;
          [|discriminate].
        apply (check_missing_getitem location "JSON dict" "data"
                 ["name"; "data"] (VDict items));
          [right; now left | exact Hmissing | exact Hget].
      * right. split; [reflexivity|].
        destruct j_data as [| | | | | | |items]; try reflexivity;
          try (exfalso; unfold _check_both, _check_missing, _check_required_key in Hboth;
               discriminate Hboth).
        exfalso. now apply (H items).
  - intros [= <-]. left. now apply check_both_Raise in Hboth.
Qed.

(** X3. When [parse] raises, the exception is the one of the decoder, an
    [InvalidMessage], or a [TypeError]: the key checks protect the
    subscripts [j_data['data']] and [f['fname']], which never raise a
    [KeyError]. *)
Theorem parse_raises buffer e :
  outcome (parse buffer) = Raise e ->
  convert_to_json buffer "Message parsing" = Raise e \/
  (exists m, e = InvalidMessage "Message parsing" m) \/
  e = TypeError.
Proof.
  rewrite parse_outcome.
  destruct (convert_to_json buffer "Message parsing") as [j_data|e'];
    cbn [mbind res_bind]; [|intros [= <-]; left; reflexivity].
  intros H. right.
  apply parse_object_Raise in H as [H | [H _]]; [left; exact H | right; exact H].
Qed.

(** *** What [parse] accepts *)

Lemma root_check_envelope location j_data calls :
  keys_distinct j_data = true ->
  _check_both location "JSON dict" (str_tuple ["name"; "data"]) j_data = Ok tt ->
  py_getitem j_data "data" = Ok (VList calls) ->
  is_envelope j_data calls.
Proof.
  intros Hdistinct Hboth Hget.
  destruct j_data as [| | | | | | |items]; try discriminate Hget.
  simpl in Hdistinct. apply bool_decide_eq_true in Hdistinct.
  assert (Hroot : NoDup ["name"; "data"]).
  { apply NoDup_cons. split; [|apply NoDup_singleton].
    intros H. apply list_elem_of_In in H. destruct H as [H|[]]. discriminate H. }
  pose proof (proj1 (check_both_Ok _ _ _ _ Hroot Hdistinct) Hboth) as Hsame.
  clear Hboth. rename Hsame into Hboth.
  assert (Hlen : length (dict_keys items) = 2).
  { apply NoDup_ListNoDup in Hroot, Hdistinct.
    apply Nat.le_antisymm.
    - apply (NoDup_incl_length (l' := ["name"; "data"]) Hdistinct).
      intros k Hk. now apply Hboth.
    - apply (NoDup_incl_length (l := ["name"; "data"]) Hroot).
      intros k Hk. now apply Hboth. }
  destruct items as [|[k1 v1] [|[k2 v2] [|]]]; try discriminate Hlen.
  assert (H1 : In k1 ["name"; "data"]) by (apply Hboth; now left).
  assert (H2 : In k2 ["name"; "data"]) by (apply Hboth; right; now left).
  assert (Hname : In "name" [k1; k2]) by (apply Hboth; now left).
  assert (Hdata : In "data" [k1; k2]) by (apply Hboth; right; now left).
  unfold is_envelope. simpl in Hget.
  destruct H1 as [<- | [<- | []]]; destruct H2 as [<- | [<- | []]]; simpl in *.
  - destruct Hdata as [H | [H | []]]; discriminate H.
  - destruct v2; try discriminate Hget. now injection Hget as ->.
  - destruct v1; try discriminate Hget. now injection Hget as ->.
  - destruct Hname as [H | [H | []]]; discriminate H.
Qed.

(** X4. [parse] accepts a frame exactly when the decoded object is an
    envelope (an object with the two keys [name] and [data], [data] being
    a list) whose calls all pass validation, and it then returns, in the
    order of [data], the operation and the arguments of each call. *)
Theorem parse_accepts_valid_envelopes buffer fas :
  (forall j_data, convert_to_json buffer "Message parsing" = Ok j_data ->
                  keys_distinct j_data = true) ->
  outcome (parse buffer) = Ok fas <->
  exists j_data calls,
    convert_to_json buffer "Message parsing" = Ok j_data /\
    is_envelope j_data calls /\
    Forall2 (fun f fa => validated_call f = Some fa) calls fas.
Proof.
  intros Hdistinct. rewrite parse_outcome. split.
  - destruct (convert_to_json buffer "Message parsing") as [j_data|] eqn:Hjson;
      [|discriminate].
    cbn [mbind res_bind]. intros Hparse.
    pose proof (parse_object_Ok _ _ _ Hparse) as (calls & Hget & Hvalid).
    exists j_data, calls. split; [reflexivity|]. split; [|exact Hvalid].
    apply (root_check_envelope "Message parsing"); [now apply Hdistinct | | exact Hget].
    unfold parse_object in Hparse.
    destruct (_check_both _ _ _ j_data) as [[]|]; [reflexivity | discriminate Hparse].
  - intros (j_data & calls & -> & Henv & Hvalid). cbn [mbind res_bind].
    rewrite (parse_object_envelope _ _ _ Henv).
    exact (proj2 (parse_function_list _ _ _) Hvalid).
Qed.

(** X5. A decoded object that has no list in the place of an object (not
    at the root, not as an entry of [data]), whose [fname]s are hashable,
    and that is no envelope of calls that all pass validation, is answered
    on a ready server with exactly one error message of the code of
    [InvalidMessage]; nothing is invoked and no exception leaves
    [advance]. *)
Theorem malformed_request_answered buffer j_data :
  convert_to_json buffer "Message parsing" = Ok j_data ->
  keys_distinct j_data = true ->
  dict_shaped j_data = true ->
  (forall calls fas,
     is_envelope j_data calls ->
     ~ Forall2 (fun f fa => validated_call f = Some fa) calls fas) ->
  exists m,
    advance true buffer =
    Run [Decode buffer;
         Sendall (dumps (VDict [("type", VStr "error"); ("code", VInt InvalidMessage_code);
                                ("message", VStr m)]));
         Sendall postfix]
        (Ok tt).
Proof.
  intros Hjson Hdistinct Hshaped Hinvalid.
  destruct (outcome (parse buffer)) as [fas|e] eqn:Hparse.
  - exfalso. rewrite parse_outcome, Hjson in Hparse. cbn [mbind res_bind] in Hparse.
    pose proof (parse_object_Ok _ _ _ Hparse) as (calls & Hget & Hvalid).
    apply (Hinvalid calls fas); [|exact Hvalid].
    apply (root_check_envelope "Message parsing"); [exact Hdistinct | | exact Hget].
    unfold parse_object in Hparse.
    destruct (_check_both _ _ _ j_data) as [[]|]; [reflexivity | discriminate Hparse].
  - pose proof Hparse as Hraise.
    rewrite parse_outcome, Hjson in Hraise. cbn [mbind res_bind] in Hraise.
    apply parse_object_Raise in Hraise as [[m ->] | [_ Hno]]; [|congruence].
    exists m. exact (advance_parse_CoreError _ _ _ _ Hparse).
Qed.

(** *** The answer of [advance] *)



Lemma advance_call_escapes buffer fas evs e :
  outcome (parse buffer) = Ok fas ->
  call_functions fas [] = Run evs (Raise e) ->
  is_CoreError e = false ->
  advance true buffer = Run (Decode buffer :: evs) (Raise e).
Proof.
  intros H Hc He. unfold advance.
  rewrite (bind_Ok _ _ _ H), parse_events, Hc.
  unfold try_except_CoreError. simpl. destruct e; [discriminate He|..]; reflexivity.
Qed.


Lemma call_functions_not_a_message done fa rest ms v acc :
  Forall2 returns done ms ->
  call (fst fa) (snd fa) = Ok (RObj v) ->
  call_functions (done ++ fa :: rest) acc =
  Run (map invocation done ++ [invocation fa]) (Raise AssertionError).
Proof.
  intros H Hv. revert acc.
  induction H as [|[func func_args] m fas ms Hm _ IH]; intros acc; simpl.
  - destruct fa as [func func_args]. simpl in Hv.
    now rewrite (bind_Ok _ _ (RObj v)) by (simpl; exact Hv).
  - unfold returns in Hm. simpl in Hm.
    rewrite (bind_Ok _ _ (RMsg m)) by (simpl; exact Hm).
    now rewrite IH.
Qed.

(** X7. When a call of a parsed batch, after calls that returned their
    messages, raises an exception that is no [CoreError], or returns an
    object that is no [CoreMessage] (the assertion of [advance] then
    fails), the exception leaves [advance] right after that invocation:
    the calls after it are not invoked and nothing at all is sent, neither
    the results computed so far nor an error message. *)
Theorem operation_failure_escapes buffer done failing rest results e :
  outcome (parse buffer) = Ok (done ++ failing :: rest) ->
  Forall2 returns done results ->
  (call (fst failing) (snd failing) = Raise e /\ is_CoreError e = false) \/
  (e = AssertionError /\ exists v, call (fst failing) (snd failing) = Ok (RObj v)) ->
  advance true buffer =
  Run (Decode buffer :: map invocation done ++ [invocation failing]) (Raise e).
Proof.
  intros Hparse Hdone [[Hraise He] | [-> [v Hv]]].
  - apply (advance_call_escapes _ _ _ _ Hparse); [|exact He].
    exact (call_functions_raises done failing rest results e [] Hdone Hraise).
  - apply (advance_call_escapes _ _ _ _ Hparse); [|reflexivity].
    exact (call_functions_not_a_message done failing rest results v [] Hdone Hv).
Qed.

(** *** Validated calls *)

Lemma getitems_keys items keys :
  (forall x, In x keys -> In x (dict_keys items)) ->
  dict_keys (omap (fun x => (fun v => (x, v)) <$> dict_get items x) keys) = keys.
Proof.
  induction keys as [|x xs IH]; intros H; [reflexivity|].
  destruct (key_dict_get items x) as [v Hv]; [apply H; now left|].
  cbn [omap list_omap]. rewrite Hv. simpl. f_equal.
  apply IH. intros y Hy. apply H. now right.
Qed.

Lemma call_kwargs_keys items : dict_keys (call_kwargs items) = arg_names items.
Proof. apply getitems_keys, arg_names_keys. Qed.

Lemma validated_call_inv f func func_args :
  validated_call f = Some (func, func_args) ->
  exists items name,
    f = VDict items /\ dict_get items "fname" = Some (VStr name) /\
    api !! name = Some func /\
    forallb (fun arg => str_in arg (co_varnames func)) (arg_names items) = true /\
    func_args = call_kwargs items.
Proof.
  destruct f as [| | | | | | |items]; try discriminate. simpl.
  destruct (dict_get items "fname") as [[| | | |name| | |]|] eqn:Hname; try discriminate.
  destruct (api !! name) as [func'|] eqn:Hapi; [|discriminate].
  destruct (forallb _ _) eqn:Hargs; [|discriminate].
  intros [= <- <-]. now exists items, name.
Qed.

Lemma validated_call_safe f func func_args :
  validated_call f = Some (func, func_args) ->
  co_varnames func = formals func ->
  call func func_args = fn_body func func_args /\
  Forall (fun k => In k (formals func) /\ k <> "fname") (dict_keys func_args).
Proof.
  intros Hvalid Hformals.
  apply validated_call_inv in Hvalid as (items & name & -> & Hname & Hapi & Hargs & ->).
  rewrite forallb_forall in Hargs. rewrite <- Hformals.
  assert (Hkeys : Forall (fun k => In k (co_varnames func) /\ k <> "fname")
                         (dict_keys (call_kwargs items))).
  { rewrite call_kwargs_keys. apply Forall_forall. intros k Hk.
    apply list_elem_of_In in Hk. split; [apply str_in_In, Hargs, Hk|].
    unfold arg_names in Hk. apply list_elem_of_In, list_elem_of_filter in Hk as [Hk _].
    intros ->. now apply Hk. }
  split; [|exact Hkeys].
  unfold call. rewrite <- Hformals.
  replace (forallb _ _) with true; [reflexivity|].
  symmetry. apply forallb_forall. intros k Hk.
  rewrite Forall_forall in Hkeys. apply str_in_In, Hkeys. now apply list_elem_of_In.
Qed.


Lemma parse_function_unexpected location items name func arg :
  dict_get items "fname" = Some (VStr name) ->
  api !! name = Some func ->
  find (fun a => negb (str_in a (co_varnames func))) (arg_names items) = Some arg ->
  parse_function location (VDict items)
  = Raise (InvalidMessage location
             ("Unexpected argument in function '" +:+ name +:+ "': '" +:+ arg +:+ "'")).
Proof.
  intros Hname Hapi Hfind. unfold parse_function.
  rewrite check_missing_fname, (dict_get_Some_key _ _ _ Hname).
  cbn [mbind res_bind py_getitem]. rewrite Hname.
  cbn [mbind res_bind api_get hashable]. rewrite Hapi.
  cbn [py_str].
  rewrite (for_each_first (fun a => str_in a (co_varnames func))
             (fun a => InvalidMessage location
                         ("Unexpected argument in function '" +:+ name
                          +:+ "': '" +:+ a +:+ "'"))).
  now rewrite Hfind.
Qed.

(** X9. On a ready server, when the first call of an envelope that fails
    validation resolves to an operation but carries keys that the
    operation does not accept, the one error message that is sent names
    the operation and the first such key, in the order of the keys of the
    call; later unexpected keys and later calls are not reported. *)
Theorem unexpected_argument_reported buffer j_data valid fas items name func arg rest :
  convert_to_json buffer "Message parsing" = Ok j_data ->
  is_envelope j_data (valid ++ VDict items :: rest) ->
  Forall2 (fun f fa => validated_call f = Some fa) valid fas ->
  dict_get items "fname" = Some (VStr name) ->
  api !! name = Some func ->
  find (fun a => negb (str_in a (co_varnames func))) (arg_names items) = Some arg ->
  advance true buffer =
  Run [Decode buffer;
       Sendall (dumps (VDict [("type", VStr "error"); ("code", VInt InvalidMessage_code);
                              ("message",
                               VStr ("Unexpected argument in function '" +:+ name
                                     +:+ "': '" +:+ arg +:+ "'"))]));
       Sendall postfix]
      (Ok tt).
Proof.
  intros Hjson Henv Hvalid Hname Hapi Hfind.
  apply advance_parse_CoreError with (location := "Message parsing").
  rewrite parse_outcome, Hjson. cbn [mbind res_bind].
  rewrite (parse_object_envelope _ _ _ Henv).
  apply map_res_Raise with (ys := fas).
  - exact (proj1 (map_res_Ok _ _ _) (proj2 (parse_function_list _ _ _) Hvalid)).
  - exact (parse_function_unexpected _ _ _ func _ Hname Hapi Hfind).
Qed.

(** X10. On a ready server, a root object that lacks one of the keys
    [name] and [data] is answered with the error message that names the
    first missing key, [name] before [data]; a root object that has both
    and another number of keys than two is answered with the error
    message that names its first key that is neither.  The calls are not
    looked at. *)
Theorem root_keys_reported buffer items k m :
  convert_to_json buffer "Message parsing" = Ok (VDict items) ->
  (find (fun k => negb (str_in k (dict_keys items))) ["name"; "data"] = Some k /\
   m = "JSON dict missing '" +:+ k +:+ "' key")
  \/
  (find (fun k => negb (str_in k (dict_keys items))) ["name"; "data"] = None /\
   length items <> 2 /\
   find (fun k => negb (str_in k ["name"; "data"])) (dict_keys items) = Some k /\
   m = "JSON dict contains unknown key '" +:+ k +:+ "'") ->
  advance true buffer =
  Run [Decode buffer;
       Sendall (dumps (VDict [("type", VStr "error"); ("code", VInt InvalidMessage_code);
                              ("message", VStr m)]));
       Sendall postfix]
      (Ok tt).
Proof.
  intros Hjson Hcases.
  apply advance_parse_CoreError with (location := "Message parsing").
  rewrite parse_outcome, Hjson. cbn [mbind res_bind]. unfold parse_object.
  rewrite check_both_dict.
  destruct Hcases as [[Hmissing ->] | (Hmissing & Hlen & Hunknown & ->)];
    rewrite Hmissing; [reflexivity|].
  apply Nat.eqb_neq in Hlen. cbn [length]. rewrite Hlen, Hunknown. reflexivity.
Qed.

(** *** The api *)

Lemma foldl_insert_lookup (members : list (string * function))
    (table : gmap string function) name :
  (exists func, In (name, func) members /\
     foldl (fun table x => <[fst x := snd x]> table) table members !! name = Some func)
  \/
  ((forall func, ~ In (name, func) members) /\
   foldl (fun table x => <[fst x := snd x]> table) table members !! name = table !! name).
Proof.
  revert table. induction members as [|[k f] members IH]; intros table; simpl.
  - right. split; [intros func []|reflexivity].
  - destruct (IH (<[k:=f]> table)) as [(func & Hin & Hlookup) | [Hnot Hlookup]].
    + left. exists func. split; [now right | exact Hlookup].
    + rewrite Hlookup. destruct (decide (k = name)) as [->|Hne].
      * left. exists f. split; [now left | apply lookup_insert_eq].
      * right. split; [|now apply lookup_insert_ne].
        intros func [Heq | Hin]; [congruence | now apply (Hnot func)].
Qed.

Lemma members_functional (members : list (string * function)) name f g :
  NoDup (map fst members) -> In (name, f) members -> In (name, g) members -> f = g.
Proof.
  induction members as [|[k h] members IH]; intros Hnodup Hf Hg; [destruct Hf|].
  change (map fst ((k, h) :: members)) with (k :: map fst members) in Hnodup.
  apply NoDup_cons in Hnodup as [Hk Hnodup].
  assert (Hfresh : forall x, In (k, x) members -> False).
  { intros x Hx. apply Hk, list_elem_of_In. exact (in_map fst members (k, x) Hx). }
  destruct Hf as [Hf | Hf], Hg as [Hg | Hg].
  - congruence.
  - exfalso. apply (Hfresh g). injection Hf as -> _. exact Hg.
  - exfalso. apply (Hfresh f). injection Hg as -> _. exact Hf.
  - now apply IH.
Qed.

(** X11. The api holds exactly the functions of the interface other than
    the special ones: when the member names are pairwise distinct, a name
    is bound to a function in [ClientHandler.api] exactly when that
    function is the member of that name and the name is not in
    [_special_functions]. *)
Theorem api_lookup name func :
  NoDup (map fst interface_members) ->
  api !! name = Some func <->
  In (name, func) interface_members /\ str_in name _special_functions = false.
Proof.
  intros Hnodup. unfold api.
  set (kept := filter (fun x => negb (str_in (fst x) _special_functions))
                      interface_members).
  assert (Hkept : forall f, In (name, f) kept <->
            In (name, f) interface_members /\ str_in name _special_functions = false).
  { intros f. unfold kept. split.
    - intros H. apply list_elem_of_In, list_elem_of_filter in H as [Hkeep H].
      cbn [fst] in Hkeep. split; [now apply list_elem_of_In|].
      destruct (str_in name _special_functions); [destruct Hkeep | reflexivity].
    - intros [H Hs]. apply list_elem_of_In, list_elem_of_filter.
      split; [cbn [fst]; rewrite Hs; exact I | now apply list_elem_of_In]. }
  destruct (foldl_insert_lookup kept ∅ name) as [(f & Hin & ->) | [Hnot ->]].
  - split.
    + intros [= <-]. now apply Hkept.
    + intros H. f_equal. apply Hkept in Hin as [Hin _]. destruct H as [H _].
      exact (members_functional _ _ _ _ Hnodup Hin H).
  - rewrite lookup_empty. split; [discriminate|].
    intros H. exfalso. apply (Hnot func), Hkept, H.
Qed.

(** *** The receive loop *)

Lemma serve_unfold world handler server_ready buffer :
  serve world handler server_ready buffer =
  (next ← dispatch handler server_ready buffer;
   match next with
   | None => mret tt
   | Some buffer' => receive world handler buffer'
   end).
Proof. destruct world; reflexivity. Qed.

Lemma bind_ret_l {A B} (a : A) (f : A -> M B) : mret a ≫= f = f a.
Proof. unfold mret, M_ret, mbind, M_bind. simpl. apply M_eta. Qed.

Lemma bind_ret_tt (m : M unit) : m ≫= (fun _ => mret tt) = m.
Proof.
  unfold mbind, M_bind. destruct m as [evs [[]|e]]; simpl; [|reflexivity].
  now rewrite app_nil_r.
Qed.

(** A buffer that does not end with the delimiter is not dispatched. *)
Lemma serve_incomplete world handler server_ready buffer :
  endswith buffer postfix = false ->
  serve world handler server_ready buffer = receive world handler buffer.
Proof.
  intros Hend. rewrite serve_unfold. unfold dispatch. rewrite Hend.
  now rewrite bind_ret_l.
Qed.

Lemma serve_complete world handler server_ready buffer :
  endswith buffer postfix = true ->
  is_active handler = true ->
  serve world handler server_ready buffer =
  advance server_ready buffer ≫= fun _ => receive world handler [].
Proof.
  intros Hend Hactive. rewrite serve_unfold, (dispatch_advances _ _ _ Hend Hactive).
  unfold mbind, M_bind. destruct (advance server_ready buffer) as [evs [[]|e]]; simpl.
  - now rewrite app_nil_r.
  - reflexivity.
Qed.

Lemma serve_stopped world handler server_ready buffer :
  endswith buffer postfix = true ->
  is_active handler = false ->
  serve world handler server_ready buffer = Run [] (Ok tt).
Proof.
  intros Hend Hactive. rewrite serve_unfold. unfold dispatch.
  now rewrite Hend, Hactive.
Qed.

Lemma receive_data data server_ready stopped world handler buffer :
  data <> [] ->
  receive (recv_data data server_ready stopped :: world) handler buffer =
  serve world {| _address := _address handler; _stopped := stopped |}
        server_ready (buffer ++ data).
Proof.
  intros Hdata. unfold receive, recv_data. cbn [received now_ready now_stopped].
  rewrite (bind_Ok (pure (Ok data)) _ data eq_refl). simpl.
  destruct data; [contradiction|]. apply M_eta.
Qed.

(** While the chunks received do not complete a frame, the loop only
    gathers them. *)
Lemma serve_gathers quiet chunks rest handler server_ready buffer :
  Forall2 (fun step chunk => received step = Ok chunk /\ chunk <> []) quiet chunks ->
  (forall k, endswith (buffer ++ concat (take k chunks)) postfix = false) ->
  exists handler' server_ready',
    _address handler' = _address handler /\
    serve (quiet ++ rest) handler server_ready buffer =
    serve rest handler' server_ready' (buffer ++ concat chunks).
Proof.
  intros H. revert handler server_ready buffer.
  induction H as [|step chunk quiet chunks [Hrecv Hchunk] _ IH];
    intros handler server_ready buffer Hquiet.
  - exists handler, server_ready. simpl. now rewrite app_nil_r.
  - destruct step as [r now_ready0 now_stopped0]. simpl in Hrecv. subst r.
    destruct (IH {| _address := _address handler; _stopped := now_stopped0 |}
                now_ready0 (buffer ++ chunk)) as (handler' & ready' & Haddr & Hserve).
    { intros k. specialize (Hquiet (S k)). simpl in Hquiet.
      now rewrite <- app_assoc. }
    exists handler', ready'. split; [exact Haddr|].
    specialize (Hquiet 0). simpl in Hquiet. rewrite app_nil_r in Hquiet.
    rewrite <- app_comm_cons, (serve_incomplete _ _ _ _ Hquiet).
    change {| received := Ok chunk; now_ready := now_ready0;
              now_stopped := now_stopped0 |}
      with (recv_data chunk now_ready0 now_stopped0).
    rewrite (receive_data _ _ _ _ _ _ Hchunk), Hserve.
    now rewrite <- app_assoc.
Qed.

Lemma handle_gathers address server_ready quiet chunks final chunk rest :
  Forall2 (fun step chunk => received step = Ok chunk /\ chunk <> []) quiet chunks ->
  (forall k, endswith (concat (take k chunks)) postfix = false) ->
  received final = Ok chunk -> chunk <> [] ->
  serve (quiet ++ final :: rest) (new_handler address) server_ready [] =
  serve rest {| _address := address; _stopped := now_stopped final |}
        (now_ready final) (concat chunks ++ chunk).
Proof.
  intros Hquiet Hprefix Hrecv Hchunk.
  destruct (serve_gathers quiet chunks (final :: rest) (new_handler address)
              server_ready [] Hquiet Hprefix) as (handler' & ready' & Haddr & ->).
  cbn [app]. rewrite (serve_incomplete (final :: rest) handler' ready' (concat chunks)).
  2: { specialize (Hprefix (length chunks)). now rewrite firstn_all in Hprefix. }
  destruct final as [r now_ready0 now_stopped0]. simpl in Hrecv. subst r.
  change {| received := Ok chunk; now_ready := now_ready0; now_stopped := now_stopped0 |}
    with (recv_data chunk now_ready0 now_stopped0).
  rewrite (receive_data _ _ _ _ _ _ Hchunk). now rewrite Haddr.
Qed.

(** X12. A frame that arrives in several pieces is dispatched once, when
    it is complete: while what was received so far does not end with the
    delimiter nothing is dispatched, and when a [recv] completes the
    frame, an active handler advances on all the bytes gathered, with the
    readiness of the server at that moment; the peer then closing, the
    handler ends (a [socket.error] raised meanwhile is caught). *)
Theorem frame_reassembled address server_ready quiet chunks final chunk :
  Forall2 (fun step chunk => received step = Ok chunk /\ chunk <> []) quiet chunks ->
  (forall k, endswith (concat (take k chunks)) postfix = false) ->
  received final = Ok chunk ->
  endswith (concat chunks ++ chunk) postfix = true ->
  now_stopped final = false ->
  _handle address server_ready (quiet ++ [final]) =
  try_except_socket_error (advance (now_ready final) (concat chunks ++ chunk)).
Proof.
  intros Hquiet Hprefix Hrecv Hend Hstopped.
  assert (Hchunk : chunk <> []).
  { intros ->. rewrite app_nil_r in Hend.
    specialize (Hprefix (length chunks)). rewrite firstn_all in Hprefix. congruence. }
  unfold _handle.
  rewrite (handle_gathers _ _ _ _ _ _ _ Hquiet Hprefix Hrecv Hchunk).
  rewrite serve_complete; [|exact Hend | unfold is_active; simpl; now rewrite Hstopped].
  simpl receive. now rewrite bind_ret_tt.
Qed.

(** X13. A handler that was stopped when the frame is complete does not
    dispatch it: nothing is decoded, invoked or sent, the loop ends, and
    what the connection would deliver afterwards is not read. *)
Theorem stopped_handler_leaves address server_ready quiet chunks final chunk rest :
  Forall2 (fun step chunk => received step = Ok chunk /\ chunk <> []) quiet chunks ->
  (forall k, endswith (concat (take k chunks)) postfix = false) ->
  received final = Ok chunk ->
  endswith (concat chunks ++ chunk) postfix = true ->
  now_stopped final = true ->
  _handle address server_ready (quiet ++ final :: rest) = Run [] (Ok tt).
Proof.
  intros Hquiet Hprefix Hrecv Hend Hstopped.
  assert (Hchunk : chunk <> []).
  { intros ->. rewrite app_nil_r in Hend.
    specialize (Hprefix (length chunks)). rewrite firstn_all in Hprefix. congruence. }
  unfold _handle.
  rewrite (handle_gathers _ _ _ _ _ _ _ Hquiet Hprefix Hrecv Hchunk).
  rewrite serve_stopped; [reflexivity | exact Hend |].
  unfold is_active. simpl. now rewrite Hstopped.
Qed.

Lemma endswith_empty : postfix <> [] -> endswith [] postfix = false.
Proof.
  intros Hpostfix. destruct postfix as [|p ps]; [now contradiction Hpostfix|].
  unfold endswith. simpl. destruct (rev ps ++ [p]) eqn:Hrev; [|reflexivity].
  now apply app_eq_nil in Hrev as [_ Hrev].
Qed.

Lemma serve_frames frames handler server_ready buffer :
  postfix <> [] ->
  is_active handler = true ->
  endswith buffer postfix = true ->
  outcome (advance server_ready buffer) = Ok tt ->
  Forall (fun frame => endswith (fst frame) postfix = true /\
                       outcome (advance (snd frame) (fst frame)) = Ok tt) frames ->
  serve (frame_steps frames) handler server_ready buffer =
  Run (events (advance server_ready buffer) ++
       flat_map (fun frame => events (advance (snd frame) (fst frame))) frames)
      (Ok tt).
Proof.
  intros Hpostfix Hactive Hend Hok Hframes. revert handler server_ready buffer Hactive Hend Hok.
  induction Hframes as [|[frame ready] frames [Hframe Hadvance] _ IH];
    intros handler server_ready buffer Hactive Hend Hok;
    rewrite (serve_complete _ _ _ _ Hend Hactive), (bind_Ok _ _ tt Hok).
  - reflexivity.
  - simpl in Hframe, Hadvance.
    change (frame_steps ((frame, ready) :: frames))
      with (recv_data frame ready false :: frame_steps frames).
    rewrite receive_data.
    2: { intros ->. rewrite (endswith_empty Hpostfix) in Hframe. discriminate Hframe. }
    cbn [app]. rewrite (IH {| _address := _address handler; _stopped := false |}
                          ready frame eq_refl Hframe Hadvance).
    reflexivity.
Qed.

(** X14. Frames are answered one by one, in the order of their arrival:
    when every [recv] returns one complete frame and no exception leaves
    [advance], the events of the connection are those of advancing on the
    first frame, then on the second, and so on, each with the readiness
    of the server at the moment the frame was received; a frame that was
    answered with the wait message is not taken up again. *)
Theorem frames_in_order address server_ready frames :
  postfix <> [] ->
  Forall (fun frame => endswith (fst frame) postfix = true /\
                       outcome (advance (snd frame) (fst frame)) = Ok tt) frames ->
  _handle address server_ready (frame_steps frames) =
  Run (flat_map (fun frame => events (advance (snd frame) (fst frame))) frames) (Ok tt).
Proof.
  intros Hpostfix Hframes. unfold _handle.
  pose proof (endswith_empty Hpostfix) as Hempty.
  rewrite (serve_incomplete _ _ _ _ Hempty).
  destruct Hframes as [|[frame ready] frames [Hframe Hadvance] Hframes]; [reflexivity|].
  simpl in Hframe, Hadvance.
  change (frame_steps ((frame, ready) :: frames))
    with (recv_data frame ready false :: frame_steps frames).
  rewrite receive_data.
  2: { intros ->. congruence. }
  cbn [app].
  rewrite (serve_frames frames
             {| _address := _address (new_handler address); _stopped := false |}
             ready frame Hpostfix eq_refl Hframe Hadvance Hframes).
  reflexivity.
Qed.

Lemma try_socket_error_prefix evs (x y : M unit) :
  try_except_socket_error x = try_except_socket_error y ->
  try_except_socket_error (Run (evs ++ events x) (outcome x))
  = try_except_socket_error (Run (evs ++ events y) (outcome y)).
Proof.
  unfold try_except_socket_error. simpl.
  destruct x as [ex [[]|[]]], y as [ey [[]|[]]]; simpl; intros [=]; subst;
    reflexivity.
Qed.

Lemma try_socket_error_bind {A} (m : M A) (k1 k2 : A -> M unit) :
  (forall a, try_except_socket_error (k1 a) = try_except_socket_error (k2 a)) ->
  try_except_socket_error (m ≫= k1) = try_except_socket_error (m ≫= k2).
Proof.
  intros H. unfold mbind, M_bind. destruct m as [evs [a|e]]; simpl; [|reflexivity].
  apply try_socket_error_prefix, H.
Qed.

Lemma serve_connection_ends before step rest handler server_ready buffer :
  received step = Ok [] \/ received step = Raise socket_error ->
  try_except_socket_error (serve (before ++ step :: rest) handler server_ready buffer)
  = try_except_socket_error (serve before handler server_ready buffer).
Proof.
  intros Hstep. revert handler server_ready buffer.
  induction before as [|s before IH]; intros handler server_ready buffer;
    rewrite !serve_unfold; apply try_socket_error_bind;
    intros [buffer'|]; try reflexivity; unfold receive.
  - cbn [app]. destruct Hstep as [-> | ->]; reflexivity.
  - rewrite <- app_comm_cons. apply try_socket_error_bind.
    intros [|c cs]; [reflexivity | apply IH].
Qed.

(** X15. A [recv] that returns no bytes (the peer has closed) and a [recv]
    that raises [socket.error] end the handler in the same way: it
    returns normally, and what it did is what it did on the steps before;
    whatever the connection would deliver afterwards is not read. *)
Theorem connection_end address server_ready before step rest :
  received step = Ok [] \/ received step = Raise socket_error ->
  _handle address server_ready (before ++ step :: rest)
  = _handle address server_ready before.
Proof. intros Hstep. unfold _handle. now apply serve_connection_ends. Qed.

Lemma api_member name func :
  api !! name = Some func -> In (name, func) interface_members.
Proof.
  unfold api. intros H.
  destruct (foldl_insert_lookup
              (filter (fun x => negb (str_in (fst x) _special_functions)) interface_members)
              ∅ name) as [(f & Hin & Hf) | [_ Hnone]].
  - rewrite Hf in H. injection H as <-.
    apply list_elem_of_In, list_elem_of_filter in Hin as [_ Hin].
    now apply list_elem_of_In.
  - rewrite Hnone, lookup_empty in H. discriminate H.
Qed.

(** X16. A frame that the decoder refuses with a [CoreError] is answered on
    a ready server with the error message of the code and message of that
    error, and nothing is validated or invoked; an exception of the
    decoder that is no [CoreError] leaves [advance] and nothing is
    sent. *)
Theorem decoder_failure buffer e :
  convert_to_json buffer "Message parsing" = Raise e ->
  advance true buffer =
  match e with
  | CoreError code _ msg =>
      Run [Decode buffer;
           Sendall (dumps (VDict [("type", VStr "error"); ("code", VInt code);
                                  ("message", VStr msg)]));
           Sendall postfix]
          (Ok tt)
  | _ => Run [Decode buffer] (Raise e)
  end.
Proof.
  intros Hjson.
  assert (Hparse : outcome (parse buffer) = Raise e)
    by (rewrite parse_outcome, Hjson; reflexivity).
  destruct e as [code location msg| | | |].
  1: exact (advance_parse_CoreError _ _ _ _ Hparse).
  all: exact (advance_parse_escapes _ _ Hparse eq_refl).
Qed.

End Handler.



(** ** The handler at work

    The handler with the sample collaborators, over the operations of
    [gallery.py] and over the two sample operations. *)

#[local] Abbreviation gallery_advance :=
  (advance sample.postfix sample.convert_to_json sample.repr sample.dumps
     sample.InvalidMessage_code interface.members).

#[local] Abbreviation gallery_handle :=
  (_handle sample.postfix sample.convert_to_json sample.repr sample.dumps
     sample.InvalidMessage_code interface.members).

#[local] Abbreviation sample_advance :=
  (advance sample.postfix sample.convert_to_json sample.repr sample.dumps
     sample.InvalidMessage_code sample.members).

#[local] Abbreviation sample_parse :=
  (parse sample.convert_to_json sample.repr sample.InvalidMessage_code sample.members).

#[local] Abbreviation gallery_call :=
  (validated_call interface.members).

(** The operations of [gallery.py] have no local variables: the names the
    handler accepts are their formal parameters. *)
Lemma gallery_formals :
  Forall (fun member => co_varnames (snd member) = formals (snd member)) interface.members.
Proof. repeat constructor. Qed.

(** X20. Whatever the members of the interface are, the special function
    [interactive] is never part of the api: no request can invoke it. *)
Lemma interactive_not_in_api members : api members !! "interactive" = None.
Proof.
  unfold api.
  assert (H : forall (xs : list (string * function)) (table : gmap string function),
             table !! "interactive" = None ->
             Forall (fun x => fst x <> "interactive") xs ->
             foldl (fun table x => <[fst x := snd x]> table) table xs
               !! "interactive" = None).
  { induction xs as [|x xs IH]; intros table Ht Hxs; simpl; [exact Ht|].
    inversion Hxs; subst. apply IH; [|assumption].
    now rewrite lookup_insert_ne. }
  apply H; [apply lookup_empty|].
  apply Forall_forall. intros x Hx.
  apply list_elem_of_filter in Hx as [Hx _]. intros Heq.
  rewrite Heq in Hx. simpl in Hx. contradiction.
Qed.

(** The batch [opA, opB, opA] of the sample operations: [opB] raises code
    42 with the message [bad gallery id]; the second [opA] is not invoked
    and the result of the first is not sent. *)
Lemma operation_failure_discards_results_witness :
  let buffer := sample.frame "{'name':'x','data':[{'fname':'opA'},{'fname':'opB'},{'fname':'opA'}]}" in
  outcome (sample_parse buffer)
  = Ok ([(sample.opA, [])] ++ (sample.opB, []) :: [(sample.opA, [])]) /\
  Forall2 returns [(sample.opA, [])] [message.Message "done"] /\
  call sample.opB [] = Raise (CoreError 42 "opB" "bad gallery id") /\
  sample_advance true buffer =
  Run [Decode buffer; Invoke sample.opA []; Invoke sample.opB [];
       Sendall (sample.dumps (VDict [("type", VStr "error"); ("code", VInt 42);
                                     ("message", VStr "bad gallery id")]));
       Sendall sample.postfix]
      (Ok tt).
Proof.
  intros buffer.
  assert (H1 : outcome (sample_parse buffer)
               = Ok ([(sample.opA, [])] ++ (sample.opB, []) :: [(sample.opA, [])]))
    by (vm_compute; reflexivity).
  assert (H2 : Forall2 returns [(sample.opA, [])] [message.Message "done"])
    by (repeat constructor).
  assert (H3 : call sample.opB [] = Raise (CoreError 42 "opB" "bad gallery id"))
    by reflexivity.
  split; [exact H1|]. split; [exact H2|]. split; [exact H3|].
  exact (operation_failure_discards_results sample.postfix sample.convert_to_json
           sample.repr sample.dumps sample.InvalidMessage_code sample.members
           buffer _ (sample.opB, []) _ _ 42%Z "opB" "bad gallery id" H1 H2 H3).
Defined.

(** Two calls of operations of [gallery.py], invoked and answered in the
    order of the request. *)
Lemma calls_invoked_in_order_witness :
  let buffer := sample.frame "{'name':'x','data':[{'fname':'scan_gallery','paths':[]},{'fname':'fetch_galleries'}]}" in
  let calls := [VDict [("fname", VStr "scan_gallery"); ("paths", VList [])];
                sample.call_fetch []] in
  let fas := [(interface.scan_gallery, [("paths", VList [])]);
              (interface.fetch_galleries, [])] in
  let results := [message.Message "works"; message.Message "works"] in
  sample.convert_to_json buffer "Message parsing" = Ok (sample.request calls) /\
  is_envelope (sample.request calls) calls /\
  Forall2 (fun f fa => gallery_call f = Some fa) calls fas /\
  Forall2 returns fas results /\
  gallery_advance true buffer =
  Run [Decode buffer;
       Invoke interface.scan_gallery [("paths", VList [])];
       Invoke interface.fetch_galleries [];
       Sendall (sample.dumps
                  (VDict [("type", VStr "function");
                          ("data", VList [VDict [("fname", VStr "scan_gallery");
                                                 ("data", VDict [("type", VStr "works")])];
                                          VDict [("fname", VStr "fetch_galleries");
                                                 ("data", VDict [("type", VStr "works")])]])]));
       Sendall sample.postfix]
      (Ok tt).
Proof.
  intros buffer calls fas results.
  assert (H1 : sample.convert_to_json buffer "Message parsing" = Ok (sample.request calls))
    by (vm_compute; reflexivity).
  assert (H2 : is_envelope (sample.request calls) calls)
    by reflexivity.
  assert (H3 : Forall2 (fun f fa => gallery_call f = Some fa) calls fas)
    by (repeat constructor).
  assert (H4 : Forall2 returns fas results) by (repeat constructor).
  split; [exact H1|]. split; [exact H2|]. split; [exact H3|]. split; [exact H4|].
  exact (calls_invoked_in_order sample.postfix sample.convert_to_json sample.repr
           sample.dumps sample.InvalidMessage_code interface.members
           buffer _ calls fas results H1 H2 H3 H4).
Defined.

(** The request with an empty [data]. *)
Lemma empty_batch_witness :
  let buffer := sample.frame "{'name':'x','data':[]}" in
  sample.convert_to_json buffer "Message parsing"
  = Ok (VDict [("name", VStr "x"); ("data", VList [])]) /\
  outcome (parse sample.convert_to_json sample.repr sample.InvalidMessage_code
             interface.members buffer) = Ok [] /\
  gallery_advance true buffer =
  Run [Decode buffer;
       Sendall (sample.dumps (VDict [("type", VStr "function"); ("data", VList [])]));
       Sendall sample.postfix]
      (Ok tt).
Proof.
  intros buffer.
  assert (H1 : sample.convert_to_json buffer "Message parsing"
               = Ok (VDict [("name", VStr "x"); ("data", VList [])]))
    by (vm_compute; reflexivity).
  split; [exact H1|].
  exact (empty_batch sample.postfix sample.convert_to_json sample.repr sample.dumps
           sample.InvalidMessage_code interface.members buffer H1).
Defined.

(** The empty function list, as the sample writer puts it on the wire. *)
Lemma empty_function_list_on_the_wire :
  sample.dumps (message.json_friendly (message.List "function" []))
  = bytes_lit (sample.json_lit "{'type':'function','data':[]}")
  /\ sample.dumps (message.json_friendly (message.Message "wait"))
     = bytes_lit (sample.json_lit "{'type':'wait'}").
Proof. split; reflexivity. Qed.

(** A valid call followed by one with an unexpected argument: the valid
    call is not invoked either. *)
Lemma validation_precedes_invocation_witness :
  let buffer := sample.frame "{'name':'x','data':[{'fname':'fetch_galleries'},{'fname':'fetch_galleries','bogus':1}]}" in
  let calls := [sample.call_fetch []; sample.call_fetch [("bogus", VInt 1)]] in
  sample.convert_to_json buffer "Message parsing" = Ok (sample.request calls) /\
  py_getitem (sample.request calls) "data" = Ok (VList calls) /\
  Exists (fun f => gallery_call f = None) calls /\
  gallery_call (sample.call_fetch []) = Some (interface.fetch_galleries, []) /\
  Forall (fun ev => is_Invoke ev = false) (events (gallery_advance true buffer)).
Proof.
  intros buffer calls.
  assert (H1 : sample.convert_to_json buffer "Message parsing" = Ok (sample.request calls))
    by (vm_compute; reflexivity).
  assert (H2 : py_getitem (sample.request calls) "data" = Ok (VList calls))
    by reflexivity.
  assert (H3 : Exists (fun f => gallery_call f = None) calls)
    by (apply Exists_cons_tl, Exists_cons_hd; reflexivity).
  split; [exact H1|]. split; [exact H2|]. split; [exact H3|]. split; [reflexivity|].
  exact (proj2 (validation_precedes_invocation sample.postfix sample.convert_to_json
                  sample.repr sample.dumps sample.InvalidMessage_code interface.members
                  true buffer)
               (sample.request calls) calls H1 H2 H3).
Defined.

(** [fetch_galleries] called with the argument [bogus], which is none of
    its parameters. *)
Lemma unexpected_argument_rejected_witness :
  let buffer := sample.frame "{'name':'x','data':[{'fname':'fetch_galleries'},{'fname':'fetch_galleries','bogus':1}]}" in
  let items := [("fname", VStr "fetch_galleries"); ("bogus", VInt 1)] in
  let calls := [sample.call_fetch []; VDict items] in
  sample.convert_to_json buffer "Message parsing" = Ok (sample.request calls) /\
  is_envelope (sample.request calls) calls /\
  Forall (fun f => is_function_call f = true) calls /\
  In (VDict items) calls /\
  dict_get items "fname" = Some (VStr "fetch_galleries") /\
  api interface.members !! "fetch_galleries" = Some interface.fetch_galleries /\
  co_varnames interface.fetch_galleries = formals interface.fetch_galleries /\
  In "bogus" (arg_names items) /\
  ~ In "bogus" (formals interface.fetch_galleries) /\
  exists code msg,
    gallery_advance true buffer =
    Run [Decode buffer;
         Sendall (sample.dumps (VDict [("type", VStr "error"); ("code", VInt code);
                                       ("message", VStr msg)]));
         Sendall sample.postfix]
        (Ok tt).
Proof.
  intros buffer items calls.
  assert (H1 : sample.convert_to_json buffer "Message parsing" = Ok (sample.request calls))
    by (vm_compute; reflexivity).
  assert (H2 : is_envelope (sample.request calls) calls)
    by reflexivity.
  assert (H3 : Forall (fun f => is_function_call f = true) calls)
    by (repeat constructor).
  assert (H4 : In (VDict items) calls) by (right; left; reflexivity).
  assert (H5 : dict_get items "fname" = Some (VStr "fetch_galleries")) by reflexivity.
  assert (H6 : api interface.members !! "fetch_galleries" = Some interface.fetch_galleries)
    by (vm_compute; reflexivity).
  assert (H7 : co_varnames interface.fetch_galleries = formals interface.fetch_galleries)
    by reflexivity.
  assert (H8 : In "bogus" (arg_names items)) by (left; reflexivity).
  assert (H9 : ~ In "bogus" (formals interface.fetch_galleries))
    by (intros [H|[]]; discriminate H).
  split; [exact H1|]. split; [exact H2|]. split; [exact H3|]. split; [exact H4|].
  split; [exact H5|]. split; [exact H6|]. split; [exact H7|]. split; [exact H8|].
  split; [exact H9|].
  exact (unexpected_argument_rejected sample.postfix sample.convert_to_json sample.repr
           sample.dumps sample.InvalidMessage_code interface.members
           buffer _ calls items "fetch_galleries" interface.fetch_galleries "bogus"
           H1 H2 H3 H4 H5 H6 H7 H8 H9).
Defined.

(** A valid call followed by a call of [nope], which is no operation. *)
Lemma unknown_function_reported_witness :
  let buffer := sample.frame "{'name':'x','data':[{'fname':'fetch_galleries'},{'fname':'nope'}]}" in
  let items := [("fname", VStr "nope")] in
  let valid := [sample.call_fetch []] in
  let fas := [(interface.fetch_galleries, [])] in
  sample.convert_to_json buffer "Message parsing"
  = Ok (sample.request (valid ++ VDict items :: [])) /\
  is_envelope (sample.request (valid ++ VDict items :: [])) (valid ++ VDict items :: []) /\
  Forall2 (fun f fa => gallery_call f = Some fa) valid fas /\
  dict_get items "fname" = Some (VStr "nope") /\
  api interface.members !! "nope" = None /\
  gallery_advance true buffer =
  Run [Decode buffer;
       Sendall (sample.dumps (VDict [("type", VStr "error"); ("code", VInt 400);
                                     ("message", VStr "Function not found: 'nope'")]));
       Sendall sample.postfix]
      (Ok tt).
Proof.
  intros buffer items valid fas.
  assert (H1 : sample.convert_to_json buffer "Message parsing"
               = Ok (sample.request (valid ++ VDict items :: [])))
    by (vm_compute; reflexivity).
  assert (H2 : is_envelope (sample.request (valid ++ VDict items :: []))
                 (valid ++ VDict items :: []))
    by reflexivity.
  assert (H3 : Forall2 (fun f fa => gallery_call f = Some fa) valid fas)
    by (repeat constructor).
  assert (H4 : dict_get items "fname" = Some (VStr "nope")) by reflexivity.
  assert (H5 : api interface.members !! "nope" = None) by (vm_compute; reflexivity).
  split; [exact H1|]. split; [exact H2|]. split; [exact H3|]. split; [exact H4|].
  split; [exact H5|].
  exact (unknown_function_reported sample.postfix sample.convert_to_json sample.repr
           sample.dumps sample.InvalidMessage_code interface.members
           buffer _ valid fas items "nope" [] H1 H2 H3 H4 H5).
Defined.

(** C5 as stated fails: this request names the operation [nope], which is
    absent from the registry, after a call with an unexpected argument.
    The one error message that is sent reports the argument; nothing that
    is sent mentions [nope]. *)
Lemma unknown_name_after_bad_argument :
  let buffer := sample.frame "{'name':'x','data':[{'fname':'fetch_galleries','bogus':1},{'fname':'nope'}]}" in
  sample.convert_to_json buffer "Message parsing"
  = Ok (sample.request [sample.call_fetch [("bogus", VInt 1)];
                        VDict [("fname", VStr "nope")]]) /\
  api interface.members !! "nope" = None /\
  gallery_advance true buffer =
  Run [Decode buffer;
       Sendall (sample.dumps
                  (VDict [("type", VStr "error"); ("code", VInt 400);
                          ("message",
                           VStr "Unexpected argument in function 'fetch_galleries': 'bogus'")]));
       Sendall sample.postfix]
      (Ok tt) /\
  Forall (fun ev => match ev with
                    | Sendall msg => sample.is_subbytes (bytes_lit "nope") msg = false
                    | _ => True
                    end)
         (events (gallery_advance true buffer)).
Proof.
  intros buffer.
  split; [vm_compute; reflexivity|]. split; [vm_compute; reflexivity|].
  split; [vm_compute; reflexivity|].
  vm_compute. repeat constructor.
Qed.

(** One frame received in one piece by a fresh handler. *)
Lemma decoder_handed_whole_buffer_witness :
  let buffer := sample.frame "{'name':'x','data':[]}" in
  let handler := new_handler "peer" in
  endswith buffer sample.postfix = true /\
  is_active handler = true /\
  (exists rest,
     events (dispatch sample.postfix sample.convert_to_json sample.repr sample.dumps
               sample.InvalidMessage_code interface.members handler true buffer)
     = Decode buffer :: rest) /\
  Forall (framed sample.postfix) (events (gallery_handle "peer" true [sample.recv buffer])).
Proof.
  intros buffer handler.
  assert (H1 : endswith buffer sample.postfix = true) by reflexivity.
  assert (H2 : is_active handler = true) by reflexivity.
  pose proof (decoder_handed_whole_buffer sample.postfix sample.convert_to_json
                sample.repr sample.dumps sample.InvalidMessage_code interface.members
                handler buffer "peer" true [sample.recv buffer]) as [Hd Hf].
  split; [exact H1|]. split; [exact H2|]. split; [exact (Hd H1 H2) | exact Hf].
Defined.

(** C3 as stated fails: the frame is received in one piece, its tail is the
    delimiter, and what the decoder is handed is the frame with the
    delimiter, not the body without it. *)
Lemma decoder_receives_delimiter :
  let body := bytes_lit (sample.json_lit "{'name':'x','data':[]}") in
  events (gallery_handle "peer" true [sample.recv (body ++ sample.postfix)])
  = [Decode (body ++ sample.postfix);
     Sendall (sample.dumps (VDict [("type", VStr "function"); ("data", VList [])]));
     Sendall sample.postfix]
  /\ ~ In (Decode body)
          (events (gallery_handle "peer" true [sample.recv (body ++ sample.postfix)])).
Proof.
  intros body.
  assert (H : events (gallery_handle "peer" true [sample.recv (body ++ sample.postfix)])
              = [Decode (body ++ sample.postfix);
                 Sendall (sample.dumps (VDict [("type", VStr "function");
                                               ("data", VList [])]));
                 Sendall sample.postfix])
    by (vm_compute; reflexivity).
  split; [exact H|].
  rewrite H. intros [Heq|[Heq|[Heq|[]]]]; discriminate Heq.
Qed.

(** C4 fails on the code: a frame whose JSON is the list [["name","data"]]
    passes the checks of the root keys (both names are members of the list,
    and its length is two); the subscript [j_data['data']] then raises a
    [TypeError], which is no [CoreError]: no error message is sent, the
    exception leaves [advance] and [_handle], and the frame that follows on
    the connection is never read. *)
Lemma list_root_escapes :
  let buffer := sample.frame "['name','data']" in
  let next := sample.frame "{'name':'x','data':[]}" in
  sample.convert_to_json buffer "Message parsing" = Ok (VList [VStr "name"; VStr "data"]) /\
  gallery_advance true buffer = Run [Decode buffer] (Raise TypeError) /\
  gallery_handle "peer" true [sample.recv buffer; sample.recv next]
  = Run [Decode buffer] (Raise TypeError).
Proof.
  intros buffer next. repeat split; vm_compute; reflexivity.
Qed.

(** The same happens for an entry of [data] that is a list holding
    ["fname"], and for an [fname] that is not hashable. *)
Lemma malformed_call_escapes :
  gallery_advance true (sample.frame "{'name':'x','data':[['fname']]}")
  = Run [Decode (sample.frame "{'name':'x','data':[['fname']]}")] (Raise TypeError) /\
  gallery_advance true (sample.frame "{'name':'x','data':[{'fname':[]}]}")
  = Run [Decode (sample.frame "{'name':'x','data':[{'fname':[]}]}")] (Raise TypeError).
Proof. split; vm_compute; reflexivity. Qed.

(** ** The operations of [gallery.py] behind the handler *)

Lemma gallery_member name func :
  api interface.members !! name = Some func ->
  co_varnames func = formals func /\ fn_body func = interface.works.
Proof.
  intros H. apply api_member in H.
  destruct H as [H | [H | [H | [H | []]]]]; injection H as _ <-; split; reflexivity.
Qed.

Lemma function_results_works (fas : list (function * kwargs)) :
  zip_with function_result fas (map (fun _ => message.Message "works") fas)
  = map (fun fa => message.Function (fn_name (fst fa)) (message.Message "works")) fas.
Proof. induction fas as [|fa fas IH]; simpl; [reflexivity | now rewrite IH]. Qed.

(** X17. With the operations of [gallery.py] as the api, validation is all
    that a request needs: on a ready server every envelope whose calls
    pass validation is answered with the function list that holds, for
    each call in order, the name of the operation and the message
    [works]; no call of these operations fails, whatever the values of the
    arguments. *)
Theorem gallery_calls_work postfix convert_to_json repr dumps InvalidMessage_code
    buffer j_data calls fas :
  convert_to_json buffer "Message parsing" = Ok j_data ->
  is_envelope j_data calls ->
  Forall2 (fun f fa => validated_call interface.members f = Some fa) calls fas ->
  advance postfix convert_to_json repr dumps InvalidMessage_code interface.members
    true buffer =
  Run (Decode buffer :: map invocation fas ++
       [Sendall (serialize dumps
                   (message.List "function"
                      (map (fun fa => message.Function (fn_name (fst fa))
                                        (message.Message "works")) fas)));
        Sendall postfix])
      (Ok tt).
Proof.
  intros Hjson Henv Hvalid.
  assert (Hreturns : Forall2 returns fas (map (fun _ => message.Message "works") fas)).
  { clear Hjson Henv. induction Hvalid as [|f [func func_args] calls fas Hf _ IH];
      constructor; [|exact IH].
    pose proof (validated_call_inv _ _ _ _ Hf) as (items & name & _ & _ & Hapi & _ & _).
    apply gallery_member in Hapi as [Hformals Hbody].
    destruct (validated_call_safe _ _ _ _ Hf Hformals) as [Hcall _].
    unfold returns. simpl. now rewrite Hcall, Hbody. }
  rewrite <- function_results_works.
  apply advance_calls_return with (fas := fas).
  - rewrite parse_outcome, Hjson. simpl.
    rewrite (parse_object_envelope _ _ _ _ _ _ Henv).
    exact (proj2 (parse_function_list _ _ _ _ _ _) Hvalid).
  - exact (call_functions_all fas _ [] Hreturns).
Qed.

(** ** Starting the server *)

(** [db.init] is the first call of [run], and a failure of it is not
    handled: the exception leaves [run] at once; nothing is printed and
    neither server nor the interactive interface is started. *)
Lemma run_database_failure env web interactive e :
  db_init env = Raise e ->
  run env web interactive = Ran [DbInit] (Raise e).
Proof. intros H. unfold run, _start, act, mbind, Srv_bind. simpl. now rewrite H. Qed.

(** X18. Once the database is initialised, [run] starts the stream server
    exactly once, and in the blocking way ([serve_forever]) exactly when
    neither the web server nor the interactive mode is asked for;
    otherwise it uses [start], which returns. *)
Theorem run_blocking_mode env web interactive :
  db_init env = Ok tt ->
  (In ServeForever (calls_made (run env web interactive))
   <-> web = false /\ interactive = false) /\
  (In ServerStart (calls_made (run env web interactive))
   <-> web = true \/ interactive = true).
Proof.
  intros Hdb.
  unfold run, _start, act, try_except_OSError, mbind, Srv_bind, mret, Srv_ret.
  cbn [result calls_made]. rewrite Hdb.
  destruct web, interactive; cbn -[String.append port_text].
  - destruct (server_start env) as [[]|[]]; cbn -[String.append port_text];
      try (destruct (web_run env false) as [[]|[]]; cbn -[String.append port_text]);
      try (destruct (run_interactive env) as [[]|[]]; cbn -[String.append port_text]);
      split; split; written_list.
  - destruct (server_start env) as [[]|[]]; cbn -[String.append port_text];
      try (destruct (web_run env true) as [[]|[]]; cbn -[String.append port_text]);
      split; split; written_list.
  - destruct (server_start env) as [[]|[]]; cbn -[String.append port_text];
      try (destruct (run_interactive env) as [[]|[]]; cbn -[String.append port_text]);
      split; split; written_list.
  - destruct (serve_forever env) as [[]|[]]; cbn -[String.append port_text];
      split; split; written_list.
Qed.


(** ** The further properties at work *)

#[local] Abbreviation gallery_parse :=
  (parse sample.convert_to_json sample.repr sample.InvalidMessage_code interface.members).

(** The root keys in the other order. *)
Lemma check_both_exact_witness :
  let items := [("data", VList []); ("name", VStr "x")] in
  NoDup ["name"; "data"] /\
  NoDup (dict_keys items) /\
  (_check_both sample.repr sample.InvalidMessage_code "Message parsing" "JSON dict"
     (str_tuple ["name"; "data"]) (VDict items) = Ok tt
   <-> (forall k, In k ["name"; "data"] <-> In k (dict_keys items))).
Proof.
  intros items.
  assert (H1 : NoDup ["name"; "data"])
    by (apply (bool_decide_eq_true_1 (NoDup ["name"; "data"])); reflexivity).
  assert (H2 : NoDup (dict_keys items))
    by (apply (bool_decide_eq_true_1 (NoDup (dict_keys items))); reflexivity).
  split; [exact H1|]. split; [exact H2|].
  exact (check_both_exact sample.repr sample.InvalidMessage_code "Message parsing"
           "JSON dict" ["name"; "data"] items H1 H2).
Defined.

(** The frame whose root is a list makes [parse] raise a [TypeError]. *)
Lemma parse_raises_witness :
  let buffer := sample.frame "['name','data']" in
  outcome (gallery_parse buffer) = Raise TypeError /\
  (sample.convert_to_json buffer "Message parsing" = Raise TypeError \/
   (exists m, TypeError = InvalidMessage sample.InvalidMessage_code "Message parsing" m) \/
   TypeError = TypeError).
Proof.
  intros buffer.
  assert (H1 : outcome (gallery_parse buffer) = Raise TypeError) by (vm_compute; reflexivity).
  split; [exact H1|].
  exact (parse_raises sample.convert_to_json sample.repr sample.InvalidMessage_code
           interface.members buffer TypeError H1).
Defined.

(** Two calls of operations of [gallery.py]. *)
Lemma parse_accepts_valid_envelopes_witness :
  let buffer := sample.frame "{'name':'x','data':[{'fname':'scan_gallery','paths':[]},{'fname':'fetch_galleries'}]}" in
  let fas := [(interface.scan_gallery, [("paths", VList [])]);
              (interface.fetch_galleries, [])] in
  (forall j_data, sample.convert_to_json buffer "Message parsing" = Ok j_data ->
                  keys_distinct j_data = true) /\
  (outcome (gallery_parse buffer) = Ok fas <->
   exists j_data calls,
     sample.convert_to_json buffer "Message parsing" = Ok j_data /\
     is_envelope j_data calls /\
     Forall2 (fun f fa => validated_call interface.members f = Some fa) calls fas).
Proof.
  intros buffer fas.
  assert (H1 : forall j_data, sample.convert_to_json buffer "Message parsing" = Ok j_data ->
                              keys_distinct j_data = true).
  { intros j_data H. vm_compute in H. injection H as <-. reflexivity. }
  split; [exact H1|].
  exact (parse_accepts_valid_envelopes sample.convert_to_json sample.repr
           sample.InvalidMessage_code interface.members buffer fas H1).
Defined.

(** A request with an unexpected argument and an unknown operation. *)
Lemma malformed_request_answered_witness :
  let buffer := sample.frame "{'name':'x','data':[{'fname':'fetch_galleries','bogus':1},{'fname':'nope'}]}" in
  let j_data := sample.request [sample.call_fetch [("bogus", VInt 1)];
                                VDict [("fname", VStr "nope")]] in
  sample.convert_to_json buffer "Message parsing" = Ok j_data /\
  keys_distinct j_data = true /\
  dict_shaped j_data = true /\
  (forall calls fas,
     is_envelope j_data calls ->
     ~ Forall2 (fun f fa => validated_call interface.members f = Some fa) calls fas) /\
  exists m,
    gallery_advance true buffer =
    Run [Decode buffer;
         Sendall (sample.dumps (VDict [("type", VStr "error");
                                       ("code", VInt sample.InvalidMessage_code);
                                       ("message", VStr m)]));
         Sendall sample.postfix]
        (Ok tt).
Proof.
  intros buffer j_data.
  assert (H1 : sample.convert_to_json buffer "Message parsing" = Ok j_data)
    by (vm_compute; reflexivity).
  assert (H2 : keys_distinct j_data = true) by reflexivity.
  assert (H3 : dict_shaped j_data = true) by reflexivity.
  assert (H4 : forall calls fas,
             is_envelope j_data calls ->
             ~ Forall2 (fun f fa => validated_call interface.members f = Some fa) calls fas).
  { intros calls fas Henv Hvalid. injection Henv as <-.
    inversion Hvalid as [|f fa calls' fas' Hf _]; subst. discriminate Hf. }
  split; [exact H1|]. split; [exact H2|]. split; [exact H3|]. split; [exact H4|].
  exact (malformed_request_answered sample.postfix sample.convert_to_json sample.repr
           sample.dumps sample.InvalidMessage_code interface.members
           buffer j_data H1 H2 H3 H4).
Defined.

(** The batch [opA, returns_none, opA]: the assertion fails after the
    second invocation. *)
Lemma operation_failure_escapes_witness :
  let buffer := sample.frame "anything" in
  let convert := examples.decodes_to examples.batch in
  outcome (parse convert sample.repr sample.InvalidMessage_code examples.members buffer)
  = Ok ([(sample.opA, [])] ++ (examples.returns_none, []) :: [(sample.opA, [])]) /\
  Forall2 returns [(sample.opA, [])] [message.Message "done"] /\
  ((call examples.returns_none [] = Raise AssertionError /\
    is_CoreError AssertionError = false) \/
   (AssertionError = AssertionError /\
    exists v, call examples.returns_none [] = Ok (RObj v))) /\
  advance sample.postfix convert sample.repr sample.dumps sample.InvalidMessage_code
    examples.members true buffer =
  Run [Decode buffer; Invoke sample.opA []; Invoke examples.returns_none []]
      (Raise AssertionError).
Proof.
  intros buffer convert.
  assert (H1 : outcome (parse convert sample.repr sample.InvalidMessage_code
                          examples.members buffer)
               = Ok ([(sample.opA, [])] ++ (examples.returns_none, [])
                       :: [(sample.opA, [])]))
    by (vm_compute; reflexivity).
  assert (H2 : Forall2 returns [(sample.opA, [])] [message.Message "done"])
    by (repeat constructor).
  assert (H3 : (call examples.returns_none [] = Raise AssertionError /\
                is_CoreError AssertionError = false) \/
               (AssertionError = AssertionError /\
                exists v, call examples.returns_none [] = Ok (RObj v)))
    by (right; split; [reflexivity | exists VNone; reflexivity]).
  split; [exact H1|]. split; [exact H2|]. split; [exact H3|].
  exact (operation_failure_escapes sample.postfix convert sample.repr sample.dumps
           sample.InvalidMessage_code examples.members
           buffer _ (examples.returns_none, []) _ _ AssertionError H1 H2 H3).
Defined.


(** [fetch_galleries] called with [bogus], before a call of [nope]. *)
Lemma unexpected_argument_reported_witness :
  let buffer := sample.frame "{'name':'x','data':[{'fname':'fetch_galleries','bogus':1},{'fname':'nope'}]}" in
  let items := [("fname", VStr "fetch_galleries"); ("bogus", VInt 1)] in
  let rest := [VDict [("fname", VStr "nope")]] in
  sample.convert_to_json buffer "Message parsing"
  = Ok (sample.request ([] ++ VDict items :: rest)) /\
  is_envelope (sample.request ([] ++ VDict items :: rest)) ([] ++ VDict items :: rest) /\
  Forall2 (fun f fa => validated_call interface.members f = Some fa) [] [] /\
  dict_get items "fname" = Some (VStr "fetch_galleries") /\
  api interface.members !! "fetch_galleries" = Some interface.fetch_galleries /\
  find (fun a => negb (str_in a (co_varnames interface.fetch_galleries))) (arg_names items)
  = Some "bogus" /\
  gallery_advance true buffer =
  Run [Decode buffer;
       Sendall (sample.dumps
                  (VDict [("type", VStr "error"); ("code", VInt 400);
                          ("message",
                           VStr "Unexpected argument in function 'fetch_galleries': 'bogus'")]));
       Sendall sample.postfix]
      (Ok tt).
Proof.
  intros buffer items rest.
  assert (H1 : sample.convert_to_json buffer "Message parsing"
               = Ok (sample.request ([] ++ VDict items :: rest)))
    by (vm_compute; reflexivity).
  assert (H2 : is_envelope (sample.request ([] ++ VDict items :: rest))
                 ([] ++ VDict items :: rest)) by reflexivity.
  assert (H3 : Forall2 (fun f fa => validated_call interface.members f = Some fa) [] [])
    by constructor.
  assert (H4 : dict_get items "fname" = Some (VStr "fetch_galleries")) by reflexivity.
  assert (H5 : api interface.members !! "fetch_galleries" = Some interface.fetch_galleries)
    by (vm_compute; reflexivity).
  assert (H6 : find (fun a => negb (str_in a (co_varnames interface.fetch_galleries)))
                 (arg_names items) = Some "bogus") by reflexivity.
  split; [exact H1|]. split; [exact H2|]. split; [exact H3|]. split; [exact H4|].
  split; [exact H5|]. split; [exact H6|].
  exact (unexpected_argument_reported sample.postfix sample.convert_to_json sample.repr
           sample.dumps sample.InvalidMessage_code interface.members
           buffer _ [] [] items "fetch_galleries" interface.fetch_galleries "bogus" rest
           H1 H2 H3 H4 H5 H6).
Defined.

(** A root object with [data] only: [name] is reported missing. *)
Lemma root_keys_reported_witness :
  let buffer := sample.frame "anything" in
  let items := [("data", VList [])] in
  let convert := examples.decodes_to (VDict items) in
  convert buffer "Message parsing" = Ok (VDict items) /\
  ((find (fun k => negb (str_in k (dict_keys items))) ["name"; "data"] = Some "name" /\
    "JSON dict missing 'name' key" = "JSON dict missing '" +:+ "name" +:+ "' key")
   \/
   (find (fun k => negb (str_in k (dict_keys items))) ["name"; "data"] = None /\
    length items <> 2 /\
    find (fun k => negb (str_in k ["name"; "data"])) (dict_keys items) = Some "name" /\
    "JSON dict missing 'name' key" = "JSON dict contains unknown key '" +:+ "name" +:+ "'")) /\
  advance sample.postfix convert sample.repr sample.dumps sample.InvalidMessage_code
    interface.members true buffer =
  Run [Decode buffer;
       Sendall (sample.dumps (VDict [("type", VStr "error"); ("code", VInt 400);
                                     ("message", VStr "JSON dict missing 'name' key")]));
       Sendall sample.postfix]
      (Ok tt).
Proof.
  intros buffer items convert.
  assert (H1 : convert buffer "Message parsing" = Ok (VDict items)) by reflexivity.
  assert (H2 : (find (fun k => negb (str_in k (dict_keys items))) ["name"; "data"]
                = Some "name" /\
                "JSON dict missing 'name' key" = "JSON dict missing '" +:+ "name" +:+ "' key")
               \/
               (find (fun k => negb (str_in k (dict_keys items))) ["name"; "data"] = None /\
                length items <> 2 /\
                find (fun k => negb (str_in k ["name"; "data"])) (dict_keys items)
                = Some "name" /\
                "JSON dict missing 'name' key"
                = "JSON dict contains unknown key '" +:+ "name" +:+ "'"))
    by (left; split; reflexivity).
  split; [exact H1|]. split; [exact H2|].
  exact (root_keys_reported sample.postfix convert sample.repr sample.dumps
           sample.InvalidMessage_code interface.members buffer items "name"
           "JSON dict missing 'name' key" H1 H2).
Defined.

(** [fetch_galleries] in the api built from [gallery.py]. *)
Lemma api_lookup_witness :
  NoDup (map fst interface.members) /\
  (api interface.members !! "fetch_galleries" = Some interface.fetch_galleries <->
   In ("fetch_galleries", interface.fetch_galleries) interface.members /\
   str_in "fetch_galleries" _special_functions = false).
Proof.
  assert (H1 : NoDup (map fst interface.members))
    by (apply (bool_decide_eq_true_1 (NoDup (map fst interface.members))); reflexivity).
  split; [exact H1|].
  exact (api_lookup interface.members "fetch_galleries" interface.fetch_galleries H1).
Defined.

(** The empty request, received in two pieces. *)
Lemma frame_reassembled_witness :
  let quiet := [recv_data examples.first_half true false] in
  let chunks := [examples.first_half] in
  let final := recv_data examples.second_half true false in
  Forall2 (fun step chunk => received step = Ok chunk /\ chunk <> []) quiet chunks /\
  (forall k, endswith (concat (take k chunks)) sample.postfix = false) /\
  received final = Ok examples.second_half /\
  endswith (concat chunks ++ examples.second_half) sample.postfix = true /\
  now_stopped final = false /\
  gallery_handle "peer" true (quiet ++ [final]) =
  try_except_socket_error
    (gallery_advance (now_ready final) (concat chunks ++ examples.second_half)).
Proof.
  intros quiet chunks final.
  assert (H1 : Forall2 (fun step chunk => received step = Ok chunk /\ chunk <> [])
                 quiet chunks)
    by (constructor; [split; [reflexivity | discriminate] | constructor]).
  assert (H2 : forall k, endswith (concat (take k chunks)) sample.postfix = false)
    by (intros [|[|k]]; reflexivity).
  assert (H3 : received final = Ok examples.second_half) by reflexivity.
  assert (H4 : endswith (concat chunks ++ examples.second_half) sample.postfix = true)
    by reflexivity.
  assert (H5 : now_stopped final = false) by reflexivity.
  split; [exact H1|]. split; [exact H2|]. split; [exact H3|]. split; [exact H4|].
  split; [exact H5|].
  exact (frame_reassembled sample.postfix sample.convert_to_json sample.repr sample.dumps
           sample.InvalidMessage_code interface.members
           "peer" true quiet chunks final examples.second_half H1 H2 H3 H4 H5).
Defined.

(** The same two pieces, the handler being stopped when the second
    arrives; a further frame follows. *)
Lemma stopped_handler_leaves_witness :
  let quiet := [recv_data examples.first_half true false] in
  let chunks := [examples.first_half] in
  let final := recv_data examples.second_half true true in
  let rest := [sample.recv (sample.frame "{'name':'x','data':[]}")] in
  Forall2 (fun step chunk => received step = Ok chunk /\ chunk <> []) quiet chunks /\
  (forall k, endswith (concat (take k chunks)) sample.postfix = false) /\
  received final = Ok examples.second_half /\
  endswith (concat chunks ++ examples.second_half) sample.postfix = true /\
  now_stopped final = true /\
  gallery_handle "peer" true (quiet ++ final :: rest) = Run [] (Ok tt).
Proof.
  intros quiet chunks final rest.
  assert (H1 : Forall2 (fun step chunk => received step = Ok chunk /\ chunk <> [])
                 quiet chunks)
    by (constructor; [split; [reflexivity | discriminate] | constructor]).
  assert (H2 : forall k, endswith (concat (take k chunks)) sample.postfix = false)
    by (intros [|[|k]]; reflexivity).
  assert (H3 : received final = Ok examples.second_half) by reflexivity.
  assert (H4 : endswith (concat chunks ++ examples.second_half) sample.postfix = true)
    by reflexivity.
  assert (H5 : now_stopped final = true) by reflexivity.
  split; [exact H1|]. split; [exact H2|]. split; [exact H3|]. split; [exact H4|].
  split; [exact H5|].
  exact (stopped_handler_leaves sample.postfix sample.convert_to_json sample.repr
           sample.dumps sample.InvalidMessage_code interface.members
           "peer" true quiet chunks final examples.second_half rest H1 H2 H3 H4 H5).
Defined.

(** Two frames, the first received before the server is ready. *)
Lemma frames_in_order_witness :
  let first := sample.frame "{'name':'x','data':[]}" in
  let second := sample.frame "{'name':'x','data':[{'fname':'scan_gallery','paths':[]},{'fname':'fetch_galleries'}]}" in
  let frames := [(first, false); (second, true)] in
  sample.postfix <> [] /\
  Forall (fun frame => endswith (fst frame) sample.postfix = true /\
                       outcome (gallery_advance (snd frame) (fst frame)) = Ok tt) frames /\
  gallery_handle "peer" false (frame_steps frames) =
  Run (flat_map (fun frame => events (gallery_advance (snd frame) (fst frame))) frames)
      (Ok tt).
Proof.
  intros first second frames.
  assert (H1 : sample.postfix <> []) by discriminate.
  assert (H2 : Forall (fun frame => endswith (fst frame) sample.postfix = true /\
                         outcome (gallery_advance (snd frame) (fst frame)) = Ok tt) frames)
    by (repeat constructor; vm_compute; reflexivity).
  split; [exact H1|]. split; [exact H2|].
  exact (frames_in_order sample.postfix sample.convert_to_json sample.repr sample.dumps
           sample.InvalidMessage_code interface.members "peer" false frames H1 H2).
Defined.

(** A frame, the peer closing, and a frame that is never read. *)
Lemma connection_end_witness :
  let frame := sample.frame "{'name':'x','data':[]}" in
  let step := recv_data [] true false in
  (received step = Ok [] \/ received step = Raise socket_error) /\
  gallery_handle "peer" true ([sample.recv frame] ++ step :: [sample.recv frame])
  = gallery_handle "peer" true [sample.recv frame].
Proof.
  intros frame step.
  assert (H1 : received step = Ok [] \/ received step = Raise socket_error)
    by (left; reflexivity).
  split; [exact H1|].
  exact (connection_end sample.postfix sample.convert_to_json sample.repr sample.dumps
           sample.InvalidMessage_code interface.members
           "peer" true [sample.recv frame] step [sample.recv frame] H1).
Defined.

(** Bytes that are no JSON text: the sample decoder raises its parse
    error. *)
Lemma decoder_failure_witness :
  let buffer := bytes_lit "garbage" ++ sample.postfix in
  sample.convert_to_json buffer "Message parsing"
  = Raise (CoreError 300 "Message parsing" "Failed parsing json data") /\
  gallery_advance true buffer =
  Run [Decode buffer;
       Sendall (sample.dumps (VDict [("type", VStr "error"); ("code", VInt 300);
                                     ("message", VStr "Failed parsing json data")]));
       Sendall sample.postfix]
      (Ok tt).
Proof.
  intros buffer.
  assert (H1 : sample.convert_to_json buffer "Message parsing"
               = Raise (CoreError 300 "Message parsing" "Failed parsing json data"))
    by (vm_compute; reflexivity).
  split; [exact H1|].
  exact (decoder_failure sample.postfix sample.convert_to_json sample.repr sample.dumps
           sample.InvalidMessage_code interface.members buffer _ H1).
Defined.

(** Two calls of operations of [gallery.py], answered with [works]. *)
Lemma gallery_calls_work_witness :
  let buffer := sample.frame "{'name':'x','data':[{'fname':'scan_gallery','paths':[]},{'fname':'fetch_galleries'}]}" in
  let calls := [VDict [("fname", VStr "scan_gallery"); ("paths", VList [])];
                sample.call_fetch []] in
  let fas := [(interface.scan_gallery, [("paths", VList [])]);
              (interface.fetch_galleries, [])] in
  sample.convert_to_json buffer "Message parsing" = Ok (sample.request calls) /\
  is_envelope (sample.request calls) calls /\
  Forall2 (fun f fa => validated_call interface.members f = Some fa) calls fas /\
  gallery_advance true buffer =
  Run (Decode buffer :: map invocation fas ++
       [Sendall (serialize sample.dumps
                   (message.List "function"
                      [message.Function "scan_gallery" (message.Message "works");
                       message.Function "fetch_galleries" (message.Message "works")]));
        Sendall sample.postfix])
      (Ok tt).
Proof.
  intros buffer calls fas.
  assert (H1 : sample.convert_to_json buffer "Message parsing" = Ok (sample.request calls))
    by (vm_compute; reflexivity).
  assert (H2 : is_envelope (sample.request calls) calls) by reflexivity.
  assert (H3 : Forall2 (fun f fa => validated_call interface.members f = Some fa) calls fas)
    by (repeat constructor).
  split; [exact H1|]. split; [exact H2|]. split; [exact H3|].
  exact (gallery_calls_work sample.postfix sample.convert_to_json sample.repr sample.dumps
           sample.InvalidMessage_code buffer _ calls fas H1 H2 H3).
Defined.

(** No database: [run] ends at once. *)
Lemma run_database_failure_witness :
  db_init examples.no_database = Raise KeyError /\
  run examples.no_database true true = Ran [DbInit] (Raise KeyError).
Proof.
  assert (H1 : db_init examples.no_database = Raise KeyError) by reflexivity.
  split; [exact H1|].
  exact (run_database_failure examples.no_database true true KeyError H1).
Defined.

(** The port of the stream server is taken; [run] with the web server. *)
Lemma run_blocking_mode_witness :
  db_init examples.port_taken = Ok tt /\
  (In ServeForever (calls_made (run examples.port_taken true false))
   <-> true = false /\ false = false) /\
  (In ServerStart (calls_made (run examples.port_taken true false))
   <-> true = true \/ false = true).
Proof.
  assert (H1 : db_init examples.port_taken = Ok tt) by reflexivity.
  split; [exact H1|].
  exact (run_blocking_mode examples.port_taken true false H1).
Defined.

